(** * Verification of [module/github.py]

    A shallow embedding of the GitHub helper module of the dashboard:
    the URL validator ([parse_github_repo_url], [url_check]), the
    fetcher ([github_api_get], [url_tree_list]), the nested-dict
    builder ([url_tree_dict]) and the ASCII renderer
    ([url_tree_string]).

    Python values are modelled by one dynamically typed value domain
    ([pyval]); a dict is a [gmap] keyed by strings, since the only
    consumer of the key order sorts the keys.  Raised exceptions are
    explicit ([result]).  A string is the sequence of the bytes of its
    UTF-8 encoding: the module searches, strips and splits strings at
    ASCII characters only and compares them by code point, and all of
    these agree with the same operation on the encoded bytes.

    Besides the tree functions the development covers the branch list
    and the README of the same module ([url_branch_list],
    [url_readme_string]), the home page of the dashboard ([Home.py],
    with [api_check] of [module/gemini.py]) and the environment-setup
    page: a page is a script over the session state that records what
    it displays. *)

From stdpp Require Import gmap strings list fin_maps sorting.
From Stdlib Require Import ZArith Ascii String.

#[local] Open Scope string_scope.
#[local] Open Scope list_scope.

(** ** Exceptions and results *)

Inductive exn :=
  | ValueError
  | KeyError
  | TypeError
  | AttributeError
  | IndexError
  | JSONDecodeError.

(** The outcome of a call: a returned value, a raised exception, or
    [OutOfFuel] for a loop model whose iteration budget ran out (shown
    below never to happen for the budget the model supplies). *)
Inductive result (A : Type) :=
  | Ok (a : A)
  | Raise (e : exn)
  | OutOfFuel.
Arguments Ok {A} a.
Arguments Raise {A} e.
Arguments OutOfFuel {A}.

Definition rbind {A B} (r : result A) (k : A → result B) : result B :=
  match r with
  | Ok a => k a
  | Raise e => Raise e
  | OutOfFuel => OutOfFuel
  end.

(** ** Python string primitives used by the module *)

Module PyStr.

Definition eqc (a b : ascii) : bool := Ascii.eqb a b.

(** [c in s] for a one-character [c]. *)
Fixpoint contains (c : ascii) (s : string) : bool :=
  match s with
  | EmptyString => false
  | String x s' => eqc x c || contains c s'
  end.

(** [s.lstrip(chars)] with the character set given as a predicate. *)
Fixpoint lstrip (p : ascii → bool) (s : string) : string :=
  match s with
  | EmptyString => EmptyString
  | String c s' => if p c then lstrip p s' else s
  end.

Fixpoint rstrip (p : ascii → bool) (s : string) : string :=
  match s with
  | EmptyString => EmptyString
  | String c s' =>
      match rstrip p s' with
      | EmptyString => if p c then EmptyString else String c EmptyString
      | r => String c r
      end
  end.

(** [s.strip(chars)] *)
Definition strip (p : ascii → bool) (s : string) : string :=
  rstrip p (lstrip p s).

(** [s.split(sep)] for a one-character separator: never the empty list. *)
Fixpoint split (sep : ascii) (s : string) : list string :=
  match s with
  | EmptyString => [EmptyString]
  | String c s' =>
      if eqc c sep then EmptyString :: split sep s'
      else match split sep s' with
           | h :: t => String c h :: t
           | [] => [String c EmptyString]
           end
  end.

(** [s.replace(c, "")] *)
Fixpoint remove (c : ascii) (s : string) : string :=
  match s with
  | EmptyString => EmptyString
  | String x s' => if eqc x c then remove c s' else String x (remove c s')
  end.

(** [s.find(c)]: [None] stands for Python's -1. *)
Fixpoint find (c : ascii) (s : string) : option nat :=
  match s with
  | EmptyString => None
  | String x s' => if eqc x c then Some 0 else S <$> find c s'
  end.

(** [s[i:]] *)
Fixpoint drop (i : nat) (s : string) : string :=
  match i, s with
  | 0, _ => s
  | S i', String _ s' => drop i' s'
  | S _, EmptyString => EmptyString
  end.

(** [s[:i]] *)
Fixpoint take (i : nat) (s : string) : string :=
  match i, s with
  | 0, _ => EmptyString
  | S i', String c s' => String c (take i' s')
  | S _, EmptyString => EmptyString
  end.

(** [s.find(c, start)] *)
Definition find_from (c : ascii) (start : nat) (s : string) : option nat :=
  (λ i, start + i) <$> find c (drop start s).

(** [s.rfind(c)] *)
Fixpoint rfind (c : ascii) (s : string) : option nat :=
  match s with
  | EmptyString => None
  | String x s' =>
      match rfind c s' with
      | Some i => Some (S i)
      | None => if eqc x c then Some 0 else None
      end
  end.

Definition forallb (p : ascii → bool) (s : string) : bool :=
  List.forallb p (list_ascii_of_string s).

Definition is_upper (c : ascii) : bool :=
  let n := nat_of_ascii c in (65 <=? n)%nat && (n <=? 90)%nat.
Definition is_lower (c : ascii) : bool :=
  let n := nat_of_ascii c in (97 <=? n)%nat && (n <=? 122)%nat.
Definition is_digit (c : ascii) : bool :=
  let n := nat_of_ascii c in (48 <=? n)%nat && (n <=? 57)%nat.
(** [c.isascii() and c.isalpha()] *)
Definition is_ascii_alpha (c : ascii) : bool := is_upper c || is_lower c.
(** [c.isascii()] *)
Definition is_ascii (c : ascii) : bool := (nat_of_ascii c <? 128)%nat.

Definition lower_char (c : ascii) : ascii :=
  if is_upper c then ascii_of_nat (nat_of_ascii c + 32) else c.
(** [s.lower()], on the characters the module applies it to (a URL
    scheme, which holds ASCII letters, digits, [+], [-] and [.]). *)
Fixpoint lower (s : string) : string :=
  match s with
  | EmptyString => EmptyString
  | String c s' => String (lower_char c) (lower s')
  end.

(** Truthiness of a string: [bool(s)]. *)
Definition truthy (s : string) : bool :=
  match s with EmptyString => false | _ => true end.

(** [s[:2] == "//"] and the like. *)
Definition startswith (p s : string) : bool :=
  String.eqb (take (String.length p) s) p.

End PyStr.

(** ** [urllib.parse]: the part of [urlparse] the module relies on

    The validator calls the standard library's [urlparse] (CPython
    3.11): [urlsplit] followed by the split of the path parameters.
    [urlsplit] raises [ValueError] on a network location with unmatched
    square brackets.  Two further checks of the library depend on tables
    outside this development (IPv6 literal syntax and NFKC
    normalisation); they are interface methods. *)

Class UrlChecks := {
  (** [_check_bracketed_netloc]: [false] when it raises [ValueError]. *)
  bracketed_netloc_ok : string → bool;
  (** the NFKC part of [_checknetloc], reached only for a non-empty,
      non-ASCII netloc: [false] when it raises [ValueError]. *)
  nfkc_netloc_ok : string → bool;
}.

Module UrlLib.
Import PyStr.

Record ParseResult := {
  scheme : string;
  netloc : string;
  path : string;
  params : string;
  query : string;
  fragment : string;
}.

(** [_WHATWG_C0_CONTROL_OR_SPACE] *)
Definition c0_control_or_space (c : ascii) : bool :=
  (nat_of_ascii c <=? 32)%nat.

(** [scheme_chars] *)
Definition scheme_char (c : ascii) : bool :=
  is_lower c || is_upper c || is_digit c
  || eqc c "+" || eqc c "-" || eqc c ".".

(** [uses_params] *)
Definition uses_params : list string :=
  [""; "ftp"; "hdl"; "prospero"; "http"; "imap"; "https"; "shttp";
   "rtsp"; "rtspu"; "sip"; "sips"; "mms"; "sftp"; "tel"].

(** [_UNSAFE_URL_BYTES_TO_REMOVE]: tab, carriage return, line feed. *)
Definition unsafe_url_bytes : list ascii :=
  [ascii_of_nat 9; ascii_of_nat 13; ascii_of_nat 10].

Definition split_scheme (url : string) : string * string :=
  match find ":" url, url with
  | Some (S i as n), String c0 _ =>
      if is_ascii_alpha c0 && forallb scheme_char (take n url)
      then (lower (take n url), drop (S n) url)
      else (EmptyString, url)
  | _, _ => (EmptyString, url)
  end.

(** [_splitnetloc(url, start)] *)
Definition splitnetloc (url : string) (start : nat) : string * string :=
  let delim :=
    foldl (λ delim c,
             match find_from c start url with
             | Some wdelim => Nat.min delim wdelim
             | None => delim
             end)
          (String.length url) ["/"; "?"; "#"]%char in
  (take (delim - start) (drop start url), drop delim url).

(** [url.split(c, 1)] when [c in url]; the pair is unchanged otherwise. *)
Definition split_once (c : ascii) (url : string) : string * string :=
  match find c url with
  | Some i => (take i url, drop (S i) url)
  | None => (url, EmptyString)
  end.

Definition checknetloc {checks : UrlChecks} (netloc : string) : result unit :=
  if negb (truthy netloc) || forallb is_ascii netloc then Ok tt
  else if nfkc_netloc_ok netloc then Ok tt
  else Raise ValueError.

Definition urlsplit {checks : UrlChecks} (url : string)
  : result (string * string * string * string * string) :=
  let url := lstrip c0_control_or_space url in
  let url := foldl (λ u b, remove b u) url unsafe_url_bytes in
  let '(scheme, url) := split_scheme url in
  rbind
    (if startswith "//" url then
       let '(netloc, url) := splitnetloc url 2 in
       if (contains "[" netloc && negb (contains "]" netloc))
          || (contains "]" netloc && negb (contains "[" netloc))
       then Raise ValueError
       else if contains "[" netloc && contains "]" netloc
               && negb (bracketed_netloc_ok netloc)
       then Raise ValueError
       else Ok (netloc, url)
     else Ok (EmptyString, url))
    (λ '(netloc, url),
       let '(url, fragment) := split_once "#" url in
       let '(url, query) := split_once "?" url in
       rbind (checknetloc netloc)
         (λ _, Ok (scheme, netloc, url, query, fragment))).

(** [_splitparams] *)
Definition splitparams (url : string) : string * string :=
  match rfind "/" url with
  | Some j =>
      match find_from ";" j url with
      | Some i => (take i url, drop (S i) url)
      | None => (url, EmptyString)
      end
  | None =>
      match find ";" url with
      | Some i => (take i url, drop (S i) url)
      | None => (take (String.length url - 1) url, url)
      end
  end.

Definition urlparse {checks : UrlChecks} (url : string) : result ParseResult :=
  rbind (urlsplit url)
    (λ '(scheme, netloc, url, query, fragment),
       let '(url, params) :=
         if bool_decide (scheme ∈ uses_params) && contains ";" url
         then splitparams url
         else (url, EmptyString) in
       Ok {| scheme := scheme; netloc := netloc; path := url;
             params := params; query := query; fragment := fragment |}).

End UrlLib.

(** ** [module/github.py]: URL validation *)

Section parse.
Context {checks : UrlChecks}.
Import PyStr UrlLib.

Definition parse_github_repo_url (_url : string)
  : result (option string * option string) :=
  rbind (urlparse _url) (λ parsed,
    let paths := split "/" (strip (eqc "/") (path parsed)) in
    if negb (String.eqb (scheme parsed) "https") then Ok (None, None)
    else if negb (String.eqb (netloc parsed) "github.com") then Ok (None, None)
    else if (List.length paths <? 2)%nat then Ok (None, None)
    else
      match paths with
      | owner :: repo :: _ =>
          if negb (truthy owner) || negb (truthy repo) then Ok (None, None)
          else Ok (Some owner, Some repo)
      | _ => Raise IndexError
      end).

(** [bool(owner and repo)] *)
Definition url_check (_url : string) : result bool :=
  rbind (parse_github_repo_url _url) (λ '(owner, repo),
    Ok match owner with
       | None => false
       | Some o =>
           if truthy o
           then match repo with None => false | Some r => truthy r end
           else false
       end).
End parse.

(** ** Python values *)

#[warnings="-register-all"]
Inductive pyval :=
  | VNone
  | VBool (b : bool)
  | VNum (literal : string)
  | VStr (s : string)
  | VList (l : list pyval)
  | VDict (d : gmap string pyval).

Module PyVal.

Fixpoint size_of (v : pyval) : nat :=
  match v with
  | VDict d => S (map_fold (λ _ c n, size_of c + n) 0 d)
  | VList l => S (foldr (λ c n, size_of c + n) 0 l)
  | _ => 1
  end.

(** [isinstance(v, dict)] *)
Definition is_dict (v : pyval) : bool :=
  match v with VDict _ => true | _ => false end.

(** [v is None] *)
Definition is_none (v : pyval) : bool :=
  match v with VNone => true | _ => false end.

(** [v[k]] for a string key [k]. *)
Definition getitem (v : pyval) (k : string) : result pyval :=
  match v with
  | VDict d => match d !! k with Some x => Ok x | None => Raise KeyError end
  | _ => Raise TypeError
  end.

(** [v.get(k, default)] *)
Definition get (v : pyval) (k : string) (default : pyval) : result pyval :=
  match v with
  | VDict d => Ok (match d !! k with Some x => x | None => default end)
  | _ => Raise AttributeError
  end.

(** [v.split("/")] *)
Definition split_slash (v : pyval) : result (list string) :=
  match v with
  | VStr s => Ok (PyStr.split "/" s)
  | _ => Raise AttributeError
  end.

(** [v == s] for a string literal [s]. *)
Definition eq_str (v : pyval) (s : string) : bool :=
  match v with VStr s' => String.eqb s' s | _ => false end.

Fixpoint chars (s : string) : list pyval :=
  match s with
  | EmptyString => []
  | String c s' => VStr (String c EmptyString) :: chars s'
  end.

(** The items a [for] loop over [v] visits.  The order in which a
    dict yields its keys is not modelled: the loop below raises on the
    first key whatever it is. *)
Definition iter (v : pyval) : result (list pyval) :=
  match v with
  | VList l => Ok l
  | VStr s => Ok (chars s)
  | VDict d => Ok (VStr <$> (map_to_list d).*1)
  | _ => Raise TypeError
  end.

(** [d.setdefault(k, v)]: the dict afterwards. *)
Definition setdefault (d : gmap string pyval) (k : string) (v : pyval)
  : gmap string pyval :=
  match d !! k with
  | Some _ => d
  | None => <[k := v]> d
  end.

(** [sorted] on a list of strings: ascending code-point order. *)
Definition sorted (l : list string) : list string := merge_sort String.le l.

End PyVal.
Import PyVal.

(** [str(v)] is a builtin; the module only relies on it being the
    identity on strings. *)
Class StrBuiltin := {
  py_str : pyval → string;
  py_str_VStr : ∀ s, py_str (VStr s) = s;
}.

(** A flat tree record as the remote listing supplies it. *)
Record TreeEntry := {
  entry_path : string;
  entry_type : string;
}.

(** ** [module/github.py]: the nested-dict builder and the renderer *)

Module Tree.

(** The JSON object of a listing record (further fields of the remote
    record are never read). *)
Definition item_of (e : TreeEntry) : pyval :=
  VDict {[ "path" := VStr (entry_path e); "type" := VStr (entry_type e) ]}.

(** The last statement of the loop body, run on the dict [node] the
    walk has reached: [node.setdefault(parts[-1], {})] for a tree
    record, [node[parts[-1]] = None] otherwise. *)
Definition place (item : pyval) (name : string) (node : pyval) : result pyval :=
  rbind (getitem item "type") (λ ty,
    if eq_str ty "tree" then
      match node with
      | VDict d => Ok (VDict (setdefault d name (VDict ∅)))
      | _ => Raise AttributeError
      end
    else
      match node with
      | VDict d => Ok (VDict (<[name := VNone]> d))
      | _ => Raise TypeError
      end).

(** [for p in parts[:-1]: node = node.setdefault(p, {})], followed by
    [final] on the node reached.  The dicts are mutated in place in
    the source; each sub-dict has one parent, so the mutation is
    written as a rebuild of the path walked. *)
Fixpoint descend (node : pyval) (dirs : list string)
    (final : pyval → result pyval) : result pyval :=
  match dirs with
  | [] => final node
  | p :: ps =>
      match node with
      | VDict d =>
          let d' := setdefault d p (VDict ∅) in
          match d' !! p with
          | Some child =>
              rbind (descend child ps final) (λ child',
                Ok (VDict (<[p := child']> d')))
          | None => Raise KeyError
          end
      | _ => Raise AttributeError
      end
  end.

(** One iteration of [for item in file_list]. *)
Definition add_item (tree_dict : pyval) (item : pyval) : result pyval :=
  rbind (getitem item "path") (λ p,
  rbind (split_slash p) (λ parts,
    match parts with
    | [] => Raise IndexError
    | _ => descend tree_dict (removelast parts)
             (place item (List.last parts EmptyString))
    end)).

Fixpoint add_items (tree_dict : pyval) (items : list pyval) : result pyval :=
  match items with
  | [] => Ok tree_dict
  | item :: rest => rbind (add_item tree_dict item) (λ t, add_items t rest)
  end.

(** Lines 160-172 of [url_tree_dict]. *)
Definition tree_dict_of (file_list : pyval) : result pyval :=
  rbind (iter file_list) (add_items (VDict ∅)).

(** *** Rendering *)

Definition nl : string := String (ascii_of_nat 10) EmptyString.

(** A stack entry: [(node, name, depth_info)]. *)
Definition frame : Type := pyval * option string * list bool.

Definition indent_of (depth_info : list bool) : string :=
  foldl (λ indent (is_last : bool),
           indent +:+ (if is_last then "    " else "│   "))
        EmptyString (removelast depth_info).

(** The text appended for a popped entry. *)
Definition line_of (node : pyval) (name : option string)
    (depth_info : list bool) : result string :=
  match name with
  | None => Ok EmptyString
  | Some name =>
      match last depth_info with
      | None => Raise IndexError
      | Some is_last =>
          let branch := if is_last then "└── " else "├── " in
          if is_dict node
          then Ok (indent_of depth_info +:+ branch +:+ name +:+ "/" +:+ nl)
          else Ok (indent_of depth_info +:+ branch +:+ name +:+ nl)
      end
  end.

Definition folders_of (d : gmap string pyval) : list string :=
  sorted ((filter (λ kv, is_dict kv.2 = true) (map_to_list d)).*1).
Definition files_of (d : gmap string pyval) : list string :=
  sorted ((filter (λ kv, is_none kv.2 = true) (map_to_list d)).*1).

(** [for i in range(len(keys) - 1, -1, -1): stack.append(...)].  The
    top of the Python stack (the end of its list) is the head here. *)
Fixpoint push_children (d : gmap string pyval) (keys : list string)
    (depth_info : list bool) (indices : list nat) (stack : list frame)
    : result (list frame) :=
  match indices with
  | [] => Ok stack
  | i :: rest =>
      match keys !! i with
      | None => Raise IndexError
      | Some key =>
          let is_last_child := Nat.eqb i (List.length keys - 1) in
          match d !! key with
          | None => Raise KeyError
          | Some child =>
              push_children d keys depth_info rest
                ((child, Some key, depth_info ++ [is_last_child]) :: stack)
          end
      end
  end.

(** [while stack: ...] *)
Fixpoint render_loop (fuel : nat) (stack : list frame) (tree_string : string)
    : result string :=
  match stack with
  | [] => Ok tree_string
  | (node, name, depth_info) :: stack =>
      match fuel with
      | 0 => OutOfFuel
      | S fuel =>
          rbind (line_of node name depth_info) (λ line,
          let tree_string := tree_string +:+ line in
          match node with
          | VDict d =>
              let keys := folders_of d ++ files_of d in
              rbind (push_children d keys depth_info
                       (rev (seq 0 (List.length keys))) stack)
                (λ stack, render_loop fuel stack tree_string)
          | _ => render_loop fuel stack tree_string
          end)
      end
  end.

(** Lines 183-210 of [url_tree_string]. *)
Definition tree_string_of (tree_dict : pyval) : result string :=
  rbind (render_loop (size_of tree_dict) [(tree_dict, None, [])] EmptyString)
    (λ tree_string, Ok ("Root" +:+ nl +:+ tree_string)).

End Tree.
Import Tree.

(** ** The network: [requests.get] and the process environment *)

Record request := {
  req_url : string;
  req_headers : gmap string string;
  req_params : option (gmap string string);
  req_timeout : Z;
}.

Record response := {
  status_code : Z;
  (** [response.json()]: the decoded body, or the decoding error. *)
  json : result pyval;
}.

(** The outside world.  [requests_get log req] answers [req] given the
    requests sent before it; [None] stands for a raised
    [requests.RequestException].  That [requests.get] returns or raises
    an exception of this class is an assumption of the model: an
    exception of another class (the library raises [UnicodeEncodeError]
    on a token that is not Latin-1) would pass through
    [github_api_get], and is not represented. *)
Class World := {
  getenv : string → option string;
  requests_get : list request → request → option response;
}.

(** Computations that send requests: the state is the log of requests
    sent so far, oldest first. *)
Definition M (A : Type) : Type := list request → result A * list request.

Definition ret {A} (a : A) : M A := λ log, (Ok a, log).
Definition bind {A B} (m : M A) (k : A → M B) : M B :=
  λ log,
    match m log with
    | (Ok a, log') => k a log'
    | (Raise e, log') => (Raise e, log')
    | (OutOfFuel, log') => (OutOfFuel, log')
    end.
Definition lift {A} (r : result A) : M A := λ log, (r, log).

Notation "'let*' x ':=' m 'in' k" := (bind m (λ x, k))
  (at level 10, x pattern, m at level 100, k at level 200, only parsing).

(** ** [module/github.py]: the fetcher and the public functions *)

Section github.
Context {checks : UrlChecks} {builtin : StrBuiltin} {world : World}.

Definition GITHUB_API_BASE : string := "https://api.github.com".

Definition github_api_get (endpoint : string)
    (params : option (gmap string string)) : M (option response) :=
  λ log,
    let url := GITHUB_API_BASE +:+ endpoint in
    let headers : gmap string string :=
      {[ "Accept" := "application/vnd.github+json" ]} in
    let headers :=
      match getenv "GITHUB_TOKEN" with
      | Some token =>
          if PyStr.truthy token
          then <[ "Authorization" := "Bearer " +:+ token ]> headers
          else headers
      | None => headers
      end in
    let req := {| req_url := url; req_headers := headers;
                  req_params := params; req_timeout := 10 |} in
    match requests_get log req with
    | None => (Ok None, log ++ [req])
    | Some response =>
        if negb (Z.eqb (status_code response) 200)
        then (Ok None, log ++ [req])
        else (Ok (Some response), log ++ [req])
    end.

(** An f-string field: [None] prints as its name. *)
Definition fmt (o : option string) : string :=
  match o with Some s => s | None => "None" end.

Definition branch_endpoint (owner repo : option string) (branch : string)
  : string :=
  "/repos/" +:+ fmt owner +:+ "/" +:+ fmt repo +:+ "/branches/" +:+ branch.

Definition tree_endpoint (owner repo : option string) (commit_sha : string)
  : string :=
  "/repos/" +:+ fmt owner +:+ "/" +:+ fmt repo +:+ "/git/trees/" +:+ commit_sha.

(** [for branch in branches_to_try: ...] with its [break]; the result
    is [commit_sha] after the loop. *)
Fixpoint resolve_commit (owner repo : option string)
    (branches_to_try : list string) : M (option string) :=
  match branches_to_try with
  | [] => ret None
  | branch :: rest =>
      let* response := github_api_get (branch_endpoint owner repo branch) None in
      match response with
      | Some r =>
          let* body := lift (json r) in
          let* commit := lift (getitem body "commit") in
          let* sha := lift (getitem commit "sha") in
          ret (Some (py_str sha))
      | None => resolve_commit owner repo rest
      end
  end.

Definition url_tree_list (_url : string) : M pyval :=
  let* ok := lift (url_check _url) in
  if negb ok then ret VNone else
  let* (owner, repo) := lift (parse_github_repo_url _url) in
  let* commit_sha := resolve_commit owner repo ["main"; "master"] in
  match commit_sha with
  | None => ret VNone
  | Some commit_sha =>
      if negb (PyStr.truthy commit_sha) then ret VNone else
      let* response := github_api_get (tree_endpoint owner repo commit_sha)
                         (Some {[ "recursive" := "1" ]}) in
      match response with
      | None => ret VNone
      | Some r =>
          let* body := lift (json r) in
          lift (get body "tree" (VList []))
      end
  end.

Definition url_tree_dict (_url : string) : M pyval :=
  let* file_list := url_tree_list _url in
  if is_none file_list then ret VNone
  else lift (tree_dict_of file_list).

Definition url_tree_string (_url : string) : M pyval :=
  let* tree_dict := url_tree_dict _url in
  if is_none tree_dict then ret VNone
  else let* s := lift (tree_string_of tree_dict) in ret (VStr s).

End github.

(** ** [module/github.py]: branch list and README *)

(** [base64.b64decode(v).decode("utf-8", errors="ignore")]: the two
    library calls of [url_readme_string], taken together. *)
Class Base64 := {
  b64decode_utf8 : pyval → result string;
}.

Module PyIn.

(** [s.startswith(p)] *)
Fixpoint is_prefix (p s : string) : bool :=
  match p, s with
  | EmptyString, _ => true
  | String a p', String b s' => Ascii.eqb a b && is_prefix p' s'
  | String _ _, EmptyString => false
  end.

(** [p in s] for two strings. *)
Fixpoint is_substring (p s : string) : bool :=
  is_prefix p s
  || match s with
     | EmptyString => false
     | String _ s' => is_substring p s'
     end.

(** [k in v] for a string [k]: key of a dict, element of a list,
    substring of a string; other values are not containers. *)
Definition contains_str (k : string) (v : pyval) : result bool :=
  match v with
  | VDict d => Ok (bool_decide (is_Some (d !! k)))
  | VList l => Ok (existsb (λ x, eq_str x k) l)
  | VStr s => Ok (is_substring k s)
  | _ => Raise TypeError
  end.

(** [[f(x) for x in items]]: the first exception ends the comprehension. *)
Fixpoint comprehension (f : pyval → result pyval) (items : list pyval)
    : result (list pyval) :=
  match items with
  | [] => Ok []
  | x :: rest =>
      rbind (f x) (λ y, rbind (comprehension f rest) (λ ys, Ok (y :: ys)))
  end.

End PyIn.

Section github_rest.
Import PyStr UrlLib PyIn.
Context {checks : UrlChecks} {builtin : StrBuiltin} {world : World}
        {base64 : Base64}.

Definition branches_endpoint (owner repo : option string) : string :=
  "/repos/" +:+ fmt owner +:+ "/" +:+ fmt repo +:+ "/branches".

Definition readme_endpoint (owner repo : option string) : string :=
  "/repos/" +:+ fmt owner +:+ "/" +:+ fmt repo +:+ "/readme".

Definition url_branch_list (_url : string) : M pyval :=
  let* ok := lift (url_check _url) in
  if negb ok then ret (VList []) else
  let* (owner, repo) := lift (parse_github_repo_url _url) in
  let* response := github_api_get (branches_endpoint owner repo) None in
  match response with
  | None => ret (VList [])
  | Some r =>
      let* branches := lift (json r) in
      let* items := lift (iter branches) in
      let* names :=
        lift (comprehension (λ branch, getitem branch "name") items) in
      ret (VList names)
  end.

Definition url_readme_string (_url : string) : M pyval :=
  let* ok := lift (url_check _url) in
  if negb ok then ret VNone else
  let* (owner, repo) := lift (parse_github_repo_url _url) in
  let* response := github_api_get (readme_endpoint owner repo) None in
  match response with
  | None => ret VNone
  | Some r =>
      let* data := lift (json r) in
      let* present := lift (contains_str "content" data) in
      if negb present then ret VNone else
      let* content := lift (getitem data "content") in
      let* readme := lift (b64decode_utf8 content) in
      ret (VStr readme)
  end.

End github_rest.

(** ** [Home.py] and [pages/02_EnvironmentSetup.py]: the dashboard pages

    A page is a script that Streamlit runs from top to bottom on every
    interaction.  The session state is a dict that outlives the runs;
    the widgets hand the script what the user entered; the display
    calls are recorded as events. *)

Inductive event :=
  | PageConfig
  | SidebarTitle (s : string)
  | SidebarSuccess (s : string)
  | SidebarError (s : string)
  | Title (s : string)
  | Header (s : string)
  | WriteOut (s : string)
  | Success (s : string)
  | Error (s : string)
  | Stop.

(** The truthiness of a number is left to the runtime. *)
Class NumBuiltin := {
  num_truthy : string → bool;
}.

(** [bool(v)] *)
Definition py_truthy `{NumBuiltin} (v : pyval) : bool :=
  match v with
  | VNone => false
  | VBool b => b
  | VNum literal => num_truthy literal
  | VStr s => PyStr.truthy s
  | VList l => match l with [] => false | _ => true end
  | VDict d => negb (bool_decide (d = ∅))
  end.

(** [v[k] = x] for a string key. *)
Definition setitem (v : pyval) (k : string) (x : pyval) : result pyval :=
  match v with
  | VDict d => Ok (VDict (<[k := x]> d))
  | _ => Raise TypeError
  end.

(** The request of [client.models.generate_content]. *)
Record gen_request := {
  gen_api_key : string;
  gen_model : string;
  gen_system_instruction : string;
  gen_contents : string;
}.

(** What a run of the home page meets outside: the key check of the
    GPT module (its truthiness, or the exception it raises) and the
    Gemini service ([None] for any raised [Exception]). *)
Record collaborators := {
  gpt_api_check : string → result bool;
  generate_content : gen_request → option string;
}.

(** What the user did in the sidebar. *)
Record sidebar_input := {
  api_key_input : string;
  repository_url_input : string;
  save_clicked : bool;
}.

Module Gemini.
Import PyStr.

(** [module/gemini.py]: [api_check], for a string argument. *)
Definition api_check (env : collaborators) (_key : string) : bool :=
  if negb (truthy _key) then false
  else
    match generate_content env
            {| gen_api_key := _key;
               gen_model := "gemini-2.5-flash";
               gen_system_instruction := "You must answer in English.";
               gen_contents := "ping" |} with
    | Some _ => true
    | None => false
    end.

End Gemini.

Module Home.

Abbreviation session := (gmap string pyval).

(** A script in progress: the session state and the events so far. *)
Definition UI (A : Type) : Type :=
  session → list event → result A * (session * list event).

Definition pure {A} (a : A) : UI A := λ ss ev, (Ok a, (ss, ev)).
Definition then_ {A B} (m : UI A) (k : A → UI B) : UI B :=
  λ ss ev,
    match m ss ev with
    | (Ok a, (ss', ev')) => k a ss' ev'
    | (Raise e, st) => (Raise e, st)
    | (OutOfFuel, st) => (OutOfFuel, st)
    end.
Definition emit (e : event) : UI unit := λ ss ev, (Ok tt, (ss, ev ++ [e])).
Definition of_result {A} (r : result A) : UI A := λ ss ev, (r, (ss, ev)).

Notation "'let+' x ':=' m 'in' k" := (then_ m (λ x, k))
  (at level 10, x pattern, m at level 100, k at level 200, only parsing).
Notation "m1 ';;' m2" := (then_ m1 (λ _, m2))
  (at level 100, m2 at level 200, right associativity, only parsing).

(** [st.session_state[k]] *)
Definition state_get (k : string) : UI pyval :=
  λ ss ev,
    (match ss !! k with Some v => Ok v | None => Raise KeyError end, (ss, ev)).

(** [st.session_state[k] = v] *)
Definition state_set (k : string) (v : pyval) : UI unit :=
  λ ss ev, (Ok tt, (<[k := v]> ss, ev)).

(** [options[k]], where [options] is the dict stored under
    ["options"]: the local variable is a reference to it. *)
Definition options_get (k : string) : UI pyval :=
  let+ options := state_get "options" in of_result (getitem options k).

(** [options[k] = v]: the write goes to the stored dict. *)
Definition options_set (k : string) (v : string) : UI unit :=
  let+ options := state_get "options" in
  let+ options' := of_result (setitem options k (VStr v)) in
  state_set "options" options'.

Definition initial_options : pyval :=
  VDict {[ "language" := VStr "Korean"; "api_key" := VStr "";
           "api_type" := VStr ""; "repository_url" := VStr "" ]}.

Definition initial_contents : pyval :=
  VDict {[ "01" := VDict {[ "File Tree" := VStr ""; "AI Comment" := VStr "" ]};
           "02" := VDict {[ "AI Comment" := VStr "" ]};
           "03" := VDict {[ "AI Comment" := VStr "" ]};
           "04" := VDict {[ "AI Comment" := VStr "" ]} ]}.

Section page.
Context {checks : UrlChecks} {num : NumBuiltin}.

(** The body of [if st.sidebar.button("Save"):]. *)
Definition save (env : collaborators) (api_key repository_url : string)
  : UI unit :=
  let contents := initial_contents in
  let+ gpt_ok := of_result (gpt_api_check env api_key) in
  (if gpt_ok then
     options_set "api_key" api_key ;;
     options_set "api_type" "GPT" ;;
     emit (SidebarSuccess "올바른 API 키(Gpt)")
   else if Gemini.api_check env api_key then
     options_set "api_key" api_key ;;
     options_set "api_type" "GEMINI" ;;
     emit (SidebarSuccess "올바른 API 키(Gemini)")
   else
     options_set "api_key" "" ;;
     options_set "api_type" "" ;;
     emit (SidebarError "잘못된 API 키")) ;;
  let+ url_ok := of_result (url_check repository_url) in
  (if url_ok then
     options_set "repository_url" repository_url ;;
     emit (SidebarSuccess "올바른 Repository 링크")
   else
     options_set "repository_url" "" ;;
     emit (SidebarError "잘못된 Repository 링크")) ;;
  let+ options := state_get "options" in
  state_set "options" options ;;
  state_set "contents" contents.

(** The last statement: [if options["api_key"] and
    options["repository_url"]: ... else: ...]. *)
Definition banner : UI unit :=
  let+ stored_key := options_get "api_key" in
  let+ both :=
    (if py_truthy stored_key
     then let+ stored_url := options_get "repository_url" in
          pure (py_truthy stored_url)
     else pure false) in
  if (both : bool)
  then emit (Success "API KEY와 GitHub URL가 확인되었습니다. 왼쪽 사이드바에서 분석 페이지로 이동하세요!")
  else emit (Error "API KEY와 GitHub URL를 입력해야 합니다.").

(** One run of [Home.py]. *)
Definition run (env : collaborators) (input : sidebar_input) : UI unit :=
  emit PageConfig ;;
  (λ ss ev,
     if bool_decide (is_Some (ss !! "options")) then (Ok tt, (ss, ev))
     else state_set "options" initial_options ss ev) ;;
  (λ ss ev,
     if bool_decide (is_Some (ss !! "contents")) then (Ok tt, (ss, ev))
     else state_set "contents" initial_contents ss ev) ;;
  let+ _options := state_get "options" in
  let+ _contents := state_get "contents" in
  emit (SidebarTitle "Input") ;;
  let+ _default_key := options_get "api_key" in
  let api_key := api_key_input input in
  let+ _default_url := options_get "repository_url" in
  let repository_url := repository_url_input input in
  (if save_clicked input then save env api_key repository_url
   else pure tt) ;;
  emit (Title "Repositorie Radar") ;;
  emit (WriteOut "GitHub 저장소를 자동 분석하는 웹 기반 오픈소스 탐색 도구입니다.") ;;
  emit (Title "Home") ;;
  banner.

End page.
End Home.

Module EnvironmentSetup.
Import Home.

Section setup_page.
Context {builtin : StrBuiltin}.

(** [st.session_state.get(k, d)] *)
Definition state_get_default (k : string) (d : pyval) : UI pyval :=
  λ ss ev, (Ok (default d (ss !! k)), (ss, ev)).

(** [st.sidebar.text_input(label, value=v, disabled=True)]: the user
    cannot edit the field, which returns [None] for the value [None]
    and otherwise its value cast to a string. *)
Definition disabled_text_input (value : pyval) : UI (option string) :=
  pure (match value with
        | VNone => None
        | _ => Some (py_str value)
        end).

(** The truthiness of what a text input returned. *)
Definition text_truthy (text : option string) : bool :=
  match text with
  | Some s => PyStr.truthy s
  | None => false
  end.

(** [prefix + text]: a string cannot be joined with [None]. *)
Definition concat_text (prefix : string) (text : option string)
  : result string :=
  match text with
  | Some s => Ok (prefix +:+ s)
  | None => Raise TypeError
  end.

(** One run of [pages/02_EnvironmentSetup.py]; [st.stop()] ends it. *)
Definition run_setup : UI unit :=
  let+ api_token := state_get_default "api_token" (VStr "") in
  let+ repository_url := state_get_default "repository_url" (VStr "") in
  emit (SidebarTitle "Input") ;;
  let+ api_token := disabled_text_input api_token in
  let+ repository_url := disabled_text_input repository_url in
  if negb (if text_truthy api_token then text_truthy repository_url
          else false)
  then
    emit (Error "API Token 과 GitHub URL를 입력해야 이 페이지를 이용할 수 있습니다.") ;;
    emit Stop
  else
    emit (Title "Repositorie Radar") ;;
    emit (WriteOut "GitHub 저장소를 자동 분석하는 웹 기반 오픈소스 탐색 도구입니다.") ;;
    emit (Header "⚙️Environment Setup") ;;
    let+ token_line := of_result (concat_text "api_token : " api_token) in
    emit (WriteOut token_line) ;;
    let+ url_line :=
      of_result (concat_text "repository_url : " repository_url) in
    emit (WriteOut url_line).

End setup_page.
End EnvironmentSetup.

(** ** Definitions used to state the properties *)

(** An instance of the library checks in which both pass; the examples
    below never reach either check. *)
Definition lenient_checks : UrlChecks :=
  {| bracketed_netloc_ok := λ _, true; nfkc_netloc_ok := λ _, true |}.

(** The two shapes of a validator result: [(None, None)], or an owner
    and a repository name that are both non-empty. *)
Definition well_shaped (p : option string * option string) : Prop :=
  match p with
  | (None, None) => True
  | (Some owner, Some repo) => owner ≠ EmptyString ∧ repo ≠ EmptyString
  | _ => False
  end.

(** The host of a parsed URL, as [urllib.parse] computes the attribute
    [hostname] from the network location (CPython 3.11,
    [_NetlocResultMixinStr._hostinfo] and [hostname]): what follows the
    last [@], up to the port, in lower case.  [PyStr.lower] is exact on
    ASCII text, on which this definition is used. *)
Section host.
Import PyStr UrlLib.

(** [s.partition(c)] *)
Definition partition (c : ascii) (s : string) : string * bool * string :=
  match find c s with
  | Some i => (take i s, true, drop (S i) s)
  | None => (s, false, EmptyString)
  end.

(** [s.rpartition(c)[2]] *)
Definition rpartition_tail (c : ascii) (s : string) : string :=
  match rfind c s with
  | Some i => drop (S i) s
  | None => s
  end.

Definition hostinfo (p : ParseResult) : string * option string :=
  let hostinfo := rpartition_tail "@" (netloc p) in
  let '(_, have_open_br, bracketed) := partition "[" hostinfo in
  let '(hostname, port) :=
    if (have_open_br : bool) then
      let '(hostname, _, port) := partition "]" bracketed in
      let '(_, _, port) := partition ":" port in
      (hostname, port)
    else
      let '(hostname, _, port) := partition ":" hostinfo in
      (hostname, port) in
  (hostname, if truthy port then Some port else None).

Definition hostname (p : ParseResult) : option string :=
  let hostname := (hostinfo p).1 in
  if negb (truthy hostname) then None
  else
    let '(hostname, percent, zone) := partition "%" hostname in
    Some (lower hostname +:+ (if (percent : bool) then "%" else EmptyString)
          +:+ zone).

End host.

(** An instance of [str] for the examples: the identity on strings. *)
Definition str_of_example (v : pyval) : string :=
  match v with
  | VStr s => s
  | VNone => "None"
  | VBool true => "True"
  | VBool false => "False"
  | VNum literal => literal
  | VList _ => "[...]"
  | VDict _ => "{...}"
  end.
Definition example_str : StrBuiltin :=
  {| py_str := str_of_example; py_str_VStr := λ s, eq_refl |}.

(** The listing of the specification's rendering example. *)
Definition example_entries : list TreeEntry :=
  [ {| entry_path := "src/a.py"; entry_type := "blob" |};
    {| entry_path := "src/b/c.py"; entry_type := "blob" |} ].

(** A branch record as the remote API answers it. *)
Definition branch_body (sha : string) : pyval :=
  VDict {[ "commit" := VDict {[ "sha" := VStr sha ]} ]}.

(** A world for the examples: no token; repository [acme/widgets] has
    a [main] branch and the listing above, [acme/legacy] has only a
    [master] branch and a tree response without a [tree] field, and
    every other request is answered with status 404. *)
Definition example_requests_get (log : list request) (req : request)
  : option response :=
  let url := req_url req in
  if String.eqb url "https://api.github.com/repos/acme/widgets/branches/main"
  then Some {| status_code := 200; json := Ok (branch_body "abc") |}
  else if String.eqb url "https://api.github.com/repos/acme/widgets/git/trees/abc"
  then Some {| status_code := 200;
               json := Ok (VDict {[ "tree" := VList (item_of <$> example_entries) ]}) |}
  else if String.eqb url "https://api.github.com/repos/acme/legacy/branches/master"
  then Some {| status_code := 200; json := Ok (branch_body "def") |}
  else if String.eqb url "https://api.github.com/repos/acme/legacy/git/trees/def"
  then Some {| status_code := 200; json := Ok (VDict {[ "sha" := VStr "def" ]}) |}
  else Some {| status_code := 404; json := Raise JSONDecodeError |}.
Definition example_world : World :=
  {| getenv := λ _, None; requests_get := example_requests_get |}.

Section fetch_defs.
Context {checks : UrlChecks} {builtin : StrBuiltin} {world : World}.

(** The request [github_api_get] sends for an endpoint. *)
Definition sent (endpoint : string) (params : option (gmap string string))
  : request :=
  {| req_url := GITHUB_API_BASE +:+ endpoint;
     req_headers :=
       match getenv "GITHUB_TOKEN" with
       | Some token =>
           if PyStr.truthy token
           then <[ "Authorization" := "Bearer " +:+ token ]>
                  {[ "Accept" := "application/vnd.github+json" ]}
           else {[ "Accept" := "application/vnd.github+json" ]}
       | None => {[ "Accept" := "application/vnd.github+json" ]}
       end;
     req_params := params;
     req_timeout := 10 |}.

(** A branch lookup made after [log] succeeds and supplies [sha]. *)
Definition lookup_succeeds (log : list request) (endpoint sha : string) : Prop :=
  ∃ r body commit v,
    (github_api_get endpoint None log).1 = Ok (Some r)
    ∧ json r = Ok body
    ∧ getitem body "commit" = Ok commit
    ∧ getitem commit "sha" = Ok v
    ∧ py_str v = sha.

(** A branch lookup made after [log] fails: network fault or a status
    other than 200. *)
Definition lookup_fails (log : list request) (endpoint : string) : Prop :=
  (github_api_get endpoint None log).1 = Ok None.

Definition recursive_params : option (gmap string string) :=
  Some {[ "recursive" := "1" ]}.
End fetch_defs.

(** *** Paths into a nested dict *)

(** The value reached from [v] by looking up the segments of [P] one
    after the other. *)
Fixpoint lookup_path (v : pyval) (P : list string) : option pyval :=
  match P with
  | [] => Some v
  | k :: P' =>
      match v with
      | VDict d =>
          match d !! k with
          | Some child => lookup_path child P'
          | None => None
          end
      | _ => None
      end
  end.

(** A well-formed directory tree: a dict whose values are [None] or
    again well-formed. *)
#[warnings="-register-all"]
Inductive dir_node : pyval → Prop :=
  | dir_node_intro (d : gmap string pyval) :
      (∀ k v, d !! k = Some v → v = VNone ∨ dir_node v) →
      dir_node (VDict d).

(** The segments of a record's path and its kind, as the loop body
    reads them. *)
Definition parts (e : TreeEntry) : list string :=
  PyStr.split "/" (entry_path e).
Definition is_tree (e : TreeEntry) : bool :=
  String.eqb (entry_type e) "tree".

(** [P] is known to be a directory in the listing [es]: a tree record
    has the path [P], or [P] is a proper prefix of some record's path. *)
Definition known_directory (es : list TreeEntry) (P : list string) : Prop :=
  ∃ e, e ∈ es
       ∧ ((is_tree e = true ∧ parts e = P)
          ∨ (P `prefix_of` parts e ∧ P ≠ parts e)).

(** *** The loop body on a typed record

    On the JSON object of a record the loop body reads the two fields
    and then walks and places; [add_entry] is that body with the reads
    done (see [add_item_item_of]). *)

Definition place_entry (tree : bool) (name : string) (node : pyval)
  : result pyval :=
  if tree then
    match node with
    | VDict d => Ok (VDict (setdefault d name (VDict ∅)))
    | _ => Raise AttributeError
    end
  else
    match node with
    | VDict d => Ok (VDict (<[name := VNone]> d))
    | _ => Raise TypeError
    end.

Definition add_entry (e : TreeEntry) (t : pyval) : result pyval :=
  descend t (removelast (parts e))
    (place_entry (is_tree e) (List.last (parts e) EmptyString)).

(** The same with the path already cut into the directories walked
    and the final name. *)
Definition ins (dirs : list string) (name : string) (tree : bool) (t : pyval)
  : result pyval := descend t dirs (place_entry tree name).

(** *** A total companion of the insertion

    It does what [ins] does on a dict and leaves any other value as it
    is; it serves to compare the results of two processing orders. *)
Definition place_total (tree : bool) (name : string) (node : pyval) : pyval :=
  match node with
  | VDict d =>
      VDict (if tree then setdefault d name (VDict ∅) else <[name := VNone]> d)
  | _ => node
  end.

Fixpoint ins_total (dirs : list string) (name : string) (tree : bool)
    (node : pyval) : pyval :=
  match dirs with
  | [] => place_total tree name node
  | p :: ps =>
      match node with
      | VDict d =>
          VDict (<[p := ins_total ps name tree (default (VDict ∅) (d !! p))]> d)
      | _ => node
      end
  end.

Definition add_entry_total (t : pyval) (e : TreeEntry) : pyval :=
  ins_total (removelast (parts e)) (List.last (parts e) EmptyString)
    (is_tree e) t.

(** *** The renderer as the specification words it *)

Definition column (is_last : bool) : string :=
  if is_last then "    " else "│   ".

Definition spec_prefix (ancestors : list bool) : string :=
  foldr (λ is_last s, column is_last +:+ s) EmptyString ancestors.

Definition spec_line (ancestors : list bool) (is_last : bool) (name : string)
    (is_dir : bool) : string :=
  spec_prefix ancestors +:+ (if is_last then "└── " else "├── ")
  +:+ name +:+ (if is_dir then "/" else EmptyString) +:+ nl.

Definition concat_strings (l : list string) : string :=
  foldr String.append EmptyString l.

(** The children of a directory in the order they are listed. *)
Definition listing (d : gmap string pyval) : list string :=
  folders_of d ++ files_of d.

Fixpoint render_spec (node : pyval) (ancestors : list bool) : string :=
  match node with
  | VDict d =>
      let below := render_spec <$> d in
      let keys := listing d in
      concat_strings
        (imap (λ i key,
                 let is_last := Nat.eqb i (List.length keys - 1) in
                 match d !! key, below !! key with
                 | Some child, Some render_child =>
                     spec_line ancestors is_last key (is_dict child)
                     +:+ render_child (ancestors ++ [is_last])
                 | _, _ => EmptyString
                 end) keys)
  | _ => EmptyString
  end.

(** *** Measures and texts for the rendering loop *)

Definition stack_size (stack : list frame) : nat :=
  foldr (λ (f : frame) n, size_of f.1.1 + n) 0 stack.

Definition frame_ok (f : frame) : Prop := f.1.2 = None ∨ f.2 ≠ [].

Definition frame_text (f : frame) : string :=
  match line_of f.1.1 f.1.2 f.2 with
  | Ok line => line
  | _ => EmptyString
  end +:+ render_spec f.1.1 f.2.

Definition child_frame (d : gmap string pyval) (n : nat) (depth_info : list bool)
    (i : nat) (key : string) : frame :=
  (default VNone (d !! key), Some key, depth_info ++ [Nat.eqb i (n - 1)]).

(** *** URLs written out

    The characters and shapes used to state the validator on URLs
    given as text. *)

Definition tab : ascii := ascii_of_nat 9.
Definition cr : ascii := ascii_of_nat 13.
Definition lf : ascii := ascii_of_nat 10.

(** [s] holds none of the characters that end the path or that
    [urlsplit] removes. *)
Definition clean (s : string) : Prop :=
  PyStr.contains "?" s = false
  ∧ PyStr.contains "#" s = false
  ∧ PyStr.contains ";" s = false
  ∧ PyStr.contains tab s = false
  ∧ PyStr.contains cr s = false
  ∧ PyStr.contains lf s = false.

(** A tail of further path segments: empty, or opened by a slash. *)
Definition segments_tail (t : string) : Prop :=
  t = EmptyString ∨ ∃ u, t = String "/" u.

(** *** Statements about the rest of the module and the pages *)

(** The characters that would change the meaning of an API endpoint
    built from an owner or a repository name. *)
Definition endpoint_delimiters : list ascii :=
  ["/"; "?"; "#"; tab; cr; lf]%char.

(** [P] is a proper prefix of [Q]. *)
Definition proper_prefix (P Q : list string) : Prop :=
  P `prefix_of` Q ∧ P ≠ Q.

(** A listing without a non-tree record whose path is a proper prefix
    of another record's path. *)
Definition consistent (es : list TreeEntry) : Prop :=
  ∀ f e, f ∈ es → e ∈ es → is_tree f = false →
         ¬ proper_prefix (parts f) (parts e).

(** The state of the loop after the records [done]: a well-formed tree
    whose leaves are the paths of non-tree records of [done], with all
    of these present. *)
Definition loop_invariant (done : list TreeEntry) (t : pyval) : Prop :=
  dir_node t
  ∧ (∀ Q, lookup_path t Q = Some VNone →
          ∃ f, f ∈ done ∧ is_tree f = false ∧ parts f = Q)
  ∧ (∀ f, f ∈ done → is_tree f = false →
          lookup_path t (parts f) = Some VNone).

(** The number of line feeds of a string. *)
Fixpoint count_nl (s : string) : nat :=
  match s with
  | EmptyString => 0
  | String c s' => (if Ascii.eqb c (ascii_of_nat 10) then 1 else 0) + count_nl s'
  end.

(** A value the renderer emits a line for. *)
Definition rendered (v : pyval) : bool := is_dict v || is_none v.

(** The number of files and directories below a node, at any depth. *)
Fixpoint descendants (v : pyval) : nat :=
  match v with
  | VDict d =>
      map_fold (λ _ c n, (if rendered c then S (descendants c) else 0) + n) 0 d
  | _ => 0
  end.

(** The number of line feeds inside the names of these. *)
Fixpoint name_line_feeds (v : pyval) : nat :=
  match v with
  | VDict d =>
      map_fold (λ k c n,
                  (if rendered c then count_nl k + name_line_feeds c else 0) + n)
               0 d
  | _ => 0
  end.

(** *** Statements about the pages *)

Section page_props.
Context {checks : UrlChecks} {num : NumBuiltin}.
Import Home.

(** The stored options are well formed: the three fields are strings,
    the API type is empty with an empty key, or [GPT], or [GEMINI] with
    a non-empty key, and the repository URL is empty or one that
    [url_check] accepts. *)
Definition options_ok (ss : session) : Prop :=
  ∃ o k ty u,
    ss !! "options" = Some (VDict o)
    ∧ o !! "api_key" = Some (VStr k)
    ∧ o !! "api_type" = Some (VStr ty)
    ∧ o !! "repository_url" = Some (VStr u)
    ∧ ((ty = "" ∧ k = "") ∨ ty = "GPT" ∨ (ty = "GEMINI" ∧ k ≠ ""))
    ∧ (u = "" ∨ url_check u = Ok true).

(** No success banner among the events. *)
Definition no_banner (ev : list event) : Prop := ∀ m, Success m ∉ ev.

(** The session after a run, whatever its outcome. *)
Definition session_after (env : collaborators) (input : sidebar_input)
    (ss : session) : session :=
  (run env input ss []).2.1.

(** The session after a sequence of runs. *)
Definition sessions_after (runs : list (collaborators * sidebar_input))
    (ss : session) : session :=
  foldl (λ ss r, session_after r.1 r.2 ss) ss runs.

End page_props.

(** A world for the examples of the branch list and the README: the
    repository [acme/widgets] has the branches [main] and [dev] and a
    README, one branch record of [acme/legacy] lacks its [name], and
    every other request is answered as in [example_world]. *)
Definition example_rest_requests_get (log : list request) (req : request)
  : option response :=
  let url := req_url req in
  if String.eqb url "https://api.github.com/repos/acme/widgets/branches"
  then Some {| status_code := 200;
               json := Ok (VList [ VDict {[ "name" := VStr "main" ]};
                                   VDict {[ "name" := VStr "dev" ]} ]) |}
  else if String.eqb url "https://api.github.com/repos/acme/legacy/branches"
  then Some {| status_code := 200;
               json := Ok (VList [ VDict {[ "name" := VStr "master" ]};
                                   VDict {[ "sha" := VStr "def" ]} ]) |}
  else if String.eqb url "https://api.github.com/repos/acme/widgets/readme"
  then Some {| status_code := 200;
               json := Ok (VDict {[ "content" := VStr "SGk=";
                                    "encoding" := VStr "base64" ]}) |}
  else example_requests_get log req.
Definition example_rest_world : World :=
  {| getenv := λ _, None; requests_get := example_rest_requests_get |}.

(** A decoder for the examples, which knows one text. *)
Definition example_base64 : Base64 :=
  {| b64decode_utf8 := λ v,
       match v with
       | VStr s => if String.eqb s "SGk=" then Ok "Hi" else Raise ValueError
       | _ => Raise TypeError
       end |}.

(** Number truthiness for the examples. *)
Definition example_num : NumBuiltin :=
  {| num_truthy := λ literal, negb (String.eqb literal "0") |}.

(** Collaborators for the examples: the GPT check rejects every key, the
    Gemini service answers one key. *)
Definition example_collaborators : collaborators :=
  {| gpt_api_check := λ _, Ok false;
     generate_content := λ req,
       if String.eqb (gen_api_key req) "example-key" then Some "pong"
       else None |}.

Definition example_input : sidebar_input :=
  {| api_key_input := "example-key";
     repository_url_input := "https://github.com/acme/widgets";
     save_clicked := true |}.

(** * Properties of the URL validator *)

Section parse_facts.
Context {checks : UrlChecks}.
Import PyStr UrlLib.

Lemma truthy_nonempty (s : string) : truthy s = true ↔ s ≠ EmptyString.
Proof. destruct s; simpl; split; congruence. Qed.

(** The validator only ever fails the way [urlparse] does. *)
Lemma parse_raise_inv (_url : string) (e : exn) :
  parse_github_repo_url _url = Raise e → urlparse _url = Raise e.
Proof.
  unfold parse_github_repo_url.
  destruct (urlparse _url) as [parsed| |]; simpl; [|congruence..].
  destruct (negb (String.eqb (scheme parsed) "https")); [done|].
  destruct (negb (String.eqb (netloc parsed) "github.com")); [done|].
  destruct (split "/" (strip (eqc "/") (path parsed))) as [|o [|r l]];
    simpl; [done..|].
  destruct (negb (truthy o) || negb (truthy r)); done.
Qed.

Lemma parse_ok_of_urlparse (_url : string) (parsed : ParseResult) :
  urlparse _url = Ok parsed → ∃ p, parse_github_repo_url _url = Ok p.
Proof.
  unfold parse_github_repo_url. intros ->. simpl.
  destruct (negb (String.eqb (scheme parsed) "https")); [eauto|].
  destruct (negb (String.eqb (netloc parsed) "github.com")); [eauto|].
  destruct (split "/" (strip (eqc "/") (path parsed))) as [|o [|r l]];
    simpl; eauto.
  destruct (negb (truthy o) || negb (truthy r)); eauto.
Qed.

Lemma parse_result_shape_aux (_url : string) :
match parse_github_repo_url _url with
| Ok p => well_shaped p
| _ => True
end.
Proof.
unfold parse_github_repo_url.
destruct (urlparse _url) as [parsed| |]; simpl; [|done..].
destruct (negb (String.eqb (scheme parsed) "https")); [done|].
destruct (negb (String.eqb (netloc parsed) "github.com")); [done|].
destruct (split "/" (strip (eqc "/") (path parsed))) as [|o [|r l]];
  simpl; [done..|].
destruct (truthy o) eqn:Ho, (truthy r) eqn:Hr; simpl; try done.
split; by apply truthy_nonempty.
Qed.

Lemma parse_no_fuel (_url : string) :
  parse_github_repo_url _url ≠ OutOfFuel.
Proof.
  unfold parse_github_repo_url, urlparse, urlsplit, checknetloc.
  repeat (case_match; simpl in *; try done).
Qed.
End parse_facts.

Section parse_claims.
Import PyStr UrlLib.

(** C5 (fails on the code): the validator is not exception-free.  On
    the input [https://[] the library parser raises [ValueError]
    (unmatched bracket in the network location) and nothing catches it,
    so neither [parse_github_repo_url] nor [url_check] returns,
    whatever the two abstract library checks answer. *)
Theorem url_validation_raises_on_unmatched_bracket (U : UrlChecks) :
  parse_github_repo_url "https://[" = Raise ValueError
  ∧ url_check "https://[" = Raise ValueError.
Proof. split; reflexivity. Qed.

(** C6 (amended): when [urlparse] reports scheme [https], network
    location [github.com] and a path whose slash-trimmed split starts
    with two non-empty segments, the validator returns exactly these two
    segments; the segments after them play no role. *)
Theorem parse_returns_first_two_segments (U : UrlChecks)
    (_url : string) (parsed : ParseResult) (owner repo : string)
    (rest : list string) :
  urlparse _url = Ok parsed →
  scheme parsed = "https" →
  netloc parsed = "github.com" →
  split "/" (strip (eqc "/") (path parsed)) = owner :: repo :: rest →
  owner ≠ EmptyString →
  repo ≠ EmptyString →
  parse_github_repo_url _url = Ok (Some owner, Some repo).
Proof.
  intros Hparse Hscheme Hnetloc Hpaths Howner Hrepo.
  unfold parse_github_repo_url. rewrite Hparse. simpl.
  rewrite Hscheme, Hnetloc, Hpaths. simpl.
  apply truthy_nonempty in Howner, Hrepo. by rewrite Howner, Hrepo.
Qed.

Lemma parse_returns_first_two_segments_witness :
  parse_github_repo_url (checks := lenient_checks)
    "https://github.com/acme/widgets/tree/main"
  = Ok (Some "acme", Some "widgets").
Proof.
  apply (parse_returns_first_two_segments lenient_checks
           "https://github.com/acme/widgets/tree/main"
           {| scheme := "https"; netloc := "github.com";
              path := "/acme/widgets/tree/main"; params := "";
              query := ""; fragment := "" |}
           "acme" "widgets" ["tree"; "main"]);
    (reflexivity || discriminate).
Defined.

(** C6 as stated fails: the code compares the whole network location,
    not the host.  The two URLs below are HTTPS URLs whose host is
    exactly [github.com] and whose path has the two segments [acme] and
    [widgets]; the first carries a user name, the second a port, and
    the validator returns [(None, None)] on both. *)
Lemma host_github_with_userinfo_or_port_rejected :
  let with_user := "https://user@github.com/acme/widgets" in
  let with_port := "https://github.com:443/acme/widgets" in
  (∃ parsed,
     urlparse (checks := lenient_checks) with_user = Ok parsed
     ∧ scheme parsed = "https"
     ∧ hostname parsed = Some "github.com"
     ∧ split "/" (strip (eqc "/") (path parsed)) = ["acme"; "widgets"]
     ∧ parse_github_repo_url (checks := lenient_checks) with_user
       = Ok (None, None))
  ∧ (∃ parsed,
       urlparse (checks := lenient_checks) with_port = Ok parsed
       ∧ scheme parsed = "https"
       ∧ hostname parsed = Some "github.com"
       ∧ split "/" (strip (eqc "/") (path parsed)) = ["acme"; "widgets"]
       ∧ parse_github_repo_url (checks := lenient_checks) with_port
         = Ok (None, None)).
Proof.
  split.
  - exists {| scheme := "https"; netloc := "user@github.com";
              path := "/acme/widgets"; params := ""; query := "";
              fragment := "" |}.
    repeat split; vm_compute; reflexivity.
  - exists {| scheme := "https"; netloc := "github.com:443";
              path := "/acme/widgets"; params := ""; query := "";
              fragment := "" |}.
    repeat split; vm_compute; reflexivity.
Qed.

(** C9 (fails on the code): not every input string makes the validator
    return a pair.  On the input [https://[] it raises [ValueError], the
    exception of the library parser that nothing catches, so it returns
    neither [(None, None)] nor a pair of two non-empty strings,
    whatever the two abstract library checks answer. *)
Theorem parse_does_not_return_on_every_input (U : UrlChecks) :
  parse_github_repo_url "https://[" = Raise ValueError
  ∧ ¬ (∃ p, parse_github_repo_url "https://[" = Ok p ∧ well_shaped p).
Proof.
  split; [reflexivity|]. intros (p & Hp & _). discriminate Hp.
Qed.

(** X20: whenever the validator returns, it returns [(None, None)] or a
    pair of two non-empty strings, never a pair with exactly one [None]
    or with an empty component; when it does not return, it raises the
    exception that [urlparse] raised on the same input. *)
Theorem parse_result_well_shaped (U : UrlChecks) (_url : string) :
  match parse_github_repo_url _url with
  | Ok p => well_shaped p
  | Raise e => urlparse _url = Raise e
  | OutOfFuel => False
  end.
Proof.
  pose proof (parse_result_shape_aux _url) as Hs.
  destruct (parse_github_repo_url _url) as [p|e|] eqn:Hp.
  - done.
  - by apply parse_raise_inv.
  - by apply parse_no_fuel in Hp.
Qed.

End parse_claims.

(** * Properties of the fetcher *)

Section fetch_facts.
Context {checks : UrlChecks} {builtin : StrBuiltin} {world : World}.

Lemma github_api_get_log endpoint params log :
  (github_api_get endpoint params log).2 = log ++ [sent endpoint params].
Proof.
  unfold github_api_get, sent.
  destruct (requests_get _ _) as [r|]; [|done].
  by destruct (negb _).
Qed.

Lemma github_api_get_eq endpoint params log :
  github_api_get endpoint params log
  = ((github_api_get endpoint params log).1, log ++ [sent endpoint params]).
Proof. rewrite <-github_api_get_log. by destruct (github_api_get _ _ _). Qed.

Lemma github_api_get_result endpoint params log :
  (∃ r, (github_api_get endpoint params log).1 = Ok (Some r))
  ∨ (github_api_get endpoint params log).1 = Ok None.
Proof.
  unfold github_api_get.
  destruct (requests_get _ _) as [r|]; [|by right].
  destruct (negb _); [by right|left; eauto].
Qed.

Lemma url_check_of_parse (_url owner repo : string) :
  parse_github_repo_url _url = Ok (Some owner, Some repo) →
  url_check _url = Ok true.
Proof.
  intros Hp. pose proof (parse_result_shape_aux _url) as Hs.
  unfold url_check. rewrite Hp in *. simpl in *.
  destruct Hs as [Ho Hr]. apply truthy_nonempty in Ho, Hr.
  by rewrite Ho, Hr.
Qed.

End fetch_facts.

Section fetch_claims.
Context {checks : UrlChecks} {builtin : StrBuiltin} {world : World}.

Lemma resolve_commit_first_succeeds owner repo branch rest log sha :
  lookup_succeeds log (branch_endpoint owner repo branch) sha →
  resolve_commit owner repo (branch :: rest) log
  = (Ok (Some sha), log ++ [sent (branch_endpoint owner repo branch) None]).
Proof.
  intros (r & body & commit & v & Hget & Hjson & Hcommit & Hsha & <-).
  simpl. unfold bind. rewrite github_api_get_eq, Hget.
  unfold lift. by rewrite Hjson, Hcommit, Hsha.
Qed.

Lemma resolve_commit_first_fails owner repo branch rest log :
  lookup_fails log (branch_endpoint owner repo branch) →
  resolve_commit owner repo (branch :: rest) log
  = resolve_commit owner repo rest
      (log ++ [sent (branch_endpoint owner repo branch) None]).
Proof.
  intros Hfail. simpl. unfold bind at 1.
  by rewrite github_api_get_eq, Hfail.
Qed.

Lemma url_tree_list_unfold (_url owner repo : string) log :
  parse_github_repo_url _url = Ok (Some owner, Some repo) →
  url_tree_list _url log
  = match resolve_commit (Some owner) (Some repo) ["main"; "master"] log with
    | (Ok (Some commit_sha), log') =>
        if PyStr.truthy commit_sha then
          match github_api_get
                  (tree_endpoint (Some owner) (Some repo) commit_sha)
                  recursive_params log' with
          | (Ok (Some r), log'') =>
              (rbind (json r) (λ body, get body "tree" (VList [])), log'')
          | (Ok None, log'') => (Ok VNone, log'')
          | (Raise e, log'') => (Raise e, log'')
          | (OutOfFuel, log'') => (OutOfFuel, log'')
          end
        else (Ok VNone, log')
    | (Ok None, log') => (Ok VNone, log')
    | (Raise e, log') => (Raise e, log')
    | (OutOfFuel, log') => (OutOfFuel, log')
    end.
Proof.
  intros Hp. unfold url_tree_list, bind, lift, ret.
  rewrite (url_check_of_parse _ _ _ Hp), Hp.
  change (negb true) with false. cbv iota beta.
  destruct (resolve_commit _ _ _ log) as [[[sha|]| |] log']; try done.
  destruct (PyStr.truthy sha); simpl; [|done].
  unfold recursive_params.
  destruct (github_api_get _ _ log') as [[[r|]| |] log'']; try done.
  by destruct (json r).
Qed.

(** C7: branch resolution in [url_tree_list] asks for [main] first and
    stops at the first success.  If the [main] lookup succeeds, its SHA
    names the tree request, which is the only request after it
    ([master] is never asked for).  If [main] fails and [master]
    succeeds, exactly these two lookups are made, in this order, and the
    SHA of the second names the tree request.  If both fail the result
    is [None] after exactly the two lookups. *)
Theorem branch_resolution_main_then_master
    (_url owner repo : string) (log : list request) :
  parse_github_repo_url _url = Ok (Some owner, Some repo) →
  let main := branch_endpoint (Some owner) (Some repo) "main" in
  let master := branch_endpoint (Some owner) (Some repo) "master" in
  let tree sha := sent (tree_endpoint (Some owner) (Some repo) sha)
                    recursive_params in
  (∀ sha, lookup_succeeds log main sha → sha ≠ EmptyString →
     resolve_commit (Some owner) (Some repo) ["main"; "master"] log
     = (Ok (Some sha), log ++ [sent main None])
     ∧ (url_tree_list _url log).2 = log ++ [sent main None; tree sha])
  ∧ (∀ sha, lookup_fails log main →
       lookup_succeeds (log ++ [sent main None]) master sha →
       sha ≠ EmptyString →
     resolve_commit (Some owner) (Some repo) ["main"; "master"] log
     = (Ok (Some sha), log ++ [sent main None; sent master None])
     ∧ (url_tree_list _url log).2
       = log ++ [sent main None; sent master None; tree sha])
  ∧ (lookup_fails log main →
     lookup_fails (log ++ [sent main None]) master →
     url_tree_list _url log
     = (Ok VNone, log ++ [sent main None; sent master None])).
Proof.
  intros Hp. cbv zeta.
  set (tree sha := sent (tree_endpoint (Some owner) (Some repo) sha)
                     recursive_params).
  assert (Htree : ∀ sha log',
    resolve_commit (Some owner) (Some repo) ["main"; "master"] log
      = (Ok (Some sha), log') →
    sha ≠ EmptyString →
    (url_tree_list _url log).2 = log' ++ [tree sha]).
  { intros sha log' Hres Hsha. rewrite (url_tree_list_unfold _ _ _ _ Hp), Hres.
    apply truthy_nonempty in Hsha. rewrite Hsha.
    rewrite github_api_get_eq.
    destruct (github_api_get _ _ _).1 as [[r|]| |]; done. }
  split; [|split].
  - intros sha Hmain Hsha.
    pose proof (resolve_commit_first_succeeds _ _ _ ["master"] _ _ Hmain) as Hres.
    split; [done|]. rewrite (Htree _ _ Hres Hsha). by rewrite <-app_assoc.
  - intros sha Hmain Hmaster Hsha.
    assert (Hres :
      resolve_commit (Some owner) (Some repo) ["main"; "master"] log
      = (Ok (Some sha),
         log ++ [sent (branch_endpoint (Some owner) (Some repo) "main") None;
                 sent (branch_endpoint (Some owner) (Some repo) "master") None])).
    { rewrite (resolve_commit_first_fails _ _ _ _ _ Hmain).
      rewrite (resolve_commit_first_succeeds _ _ _ [] _ _ Hmaster).
      by rewrite <-app_assoc. }
    split; [done|]. rewrite (Htree _ _ Hres Hsha). by rewrite <-app_assoc.
  - intros Hmain Hmaster.
    rewrite (url_tree_list_unfold _ _ _ _ Hp).
    rewrite (resolve_commit_first_fails _ _ _ _ _ Hmain).
    rewrite (resolve_commit_first_fails _ _ _ _ _ Hmaster).
    simpl. unfold ret. by rewrite <-app_assoc.
Qed.

(** C8: when the branch resolves and the tree response decodes to an
    object without a [tree] field, [url_tree_list] returns the empty
    list, no exception is raised, and [url_tree_dict] builds the empty
    dict from it. *)
Theorem missing_tree_field_gives_empty_list
    (_url owner repo sha : string) (log log1 : list request)
    (r : response) (d : gmap string pyval) :
  parse_github_repo_url _url = Ok (Some owner, Some repo) →
  resolve_commit (Some owner) (Some repo) ["main"; "master"] log
    = (Ok (Some sha), log1) →
  sha ≠ EmptyString →
  (github_api_get (tree_endpoint (Some owner) (Some repo) sha)
     recursive_params log1).1 = Ok (Some r) →
  json r = Ok (VDict d) →
  d !! "tree" = None →
  let log2 := log1 ++ [sent (tree_endpoint (Some owner) (Some repo) sha)
                         recursive_params] in
  url_tree_list _url log = (Ok (VList []), log2)
  ∧ url_tree_dict _url log = (Ok (VDict ∅), log2).
Proof.
  intros Hp Hres Hsha Hget Hjson Htree log2.
  assert (Hlist : url_tree_list _url log = (Ok (VList []), log2)).
  { rewrite (url_tree_list_unfold _ _ _ _ Hp), Hres.
    apply truthy_nonempty in Hsha. rewrite Hsha.
    rewrite github_api_get_eq, Hget, Hjson. simpl. by rewrite Htree. }
  split; [done|].
  unfold url_tree_dict, bind. by rewrite Hlist.
Qed.

End fetch_claims.

(** * Properties of the builder *)

Section builder_facts.

Lemma split_nonempty (sep : ascii) (s : string) : PyStr.split sep s ≠ [].
Proof.
  destruct s as [|c s]; simpl; [done|].
  destruct (PyStr.eqc c sep); [done|]. by destruct (PyStr.split sep s).
Qed.

Lemma removelast_snoc_last (l : list string) :
  l ≠ [] → removelast l ++ [List.last l EmptyString] = l.
Proof. intros Hl. symmetry. by apply app_removelast_last. Qed.

Lemma dir_node_empty : dir_node (VDict ∅).
Proof. constructor. intros k v. by rewrite lookup_empty. Qed.

Lemma dir_node_insert (d : gmap string pyval) (k : string) (v : pyval) :
  dir_node (VDict d) → v = VNone ∨ dir_node v → dir_node (VDict (<[k := v]> d)).
Proof.
  intros Hd Hv. inversion Hd as [d' Hall]; subst. constructor.
  intros k' v'. rewrite lookup_insert. case_decide; [|by eauto].
  by intros [= <-].
Qed.

Lemma dir_node_setdefault (d : gmap string pyval) (k : string) :
  dir_node (VDict d) → dir_node (VDict (setdefault d k (VDict ∅))).
Proof.
  intros Hd. unfold setdefault. destruct (d !! k); [done|].
  apply dir_node_insert; [done|]. right. apply dir_node_empty.
Qed.

Lemma dir_node_lookup (d : gmap string pyval) (k : string) (v : pyval) :
  dir_node (VDict d) → d !! k = Some v → v = VNone ∨ dir_node v.
Proof. intros Hd. inversion Hd; subst. eauto. Qed.

Lemma place_dir_node item name node t :
  place item name node = Ok t → node = VNone ∨ dir_node node → dir_node t.
Proof.
  unfold place. destruct (getitem item "type") as [ty| |]; simpl; [|done..].
  destruct (eq_str ty "tree"), node; try done; intros [= <-] [?|Hd]; try done.
  - by apply dir_node_setdefault.
  - apply dir_node_insert; auto.
Qed.

Lemma descend_dir_node (final : pyval → result pyval) dirs :
  (∀ node t, final node = Ok t → node = VNone ∨ dir_node node → dir_node t) →
  ∀ node t,
    descend node dirs final = Ok t → node = VNone ∨ dir_node node → dir_node t.
Proof.
  intros Hfinal. induction dirs as [|p ps IH]; intros node t; simpl; [by eauto|].
  destruct node as [| | | | |d]; try done.
  destruct (setdefault d p (VDict ∅) !! p) as [child|] eqn:Hchild; [|done].
  destruct (descend child ps final) as [child'| |] eqn:Hdesc; simpl; [|done..].
  intros [= <-] [?|Hd]; [done|].
  pose proof (dir_node_setdefault d p Hd) as Hd'.
  apply dir_node_insert; [done|]. right.
  eapply IH; [done|]. by eapply dir_node_lookup.
Qed.

Lemma add_item_dir_node tree_dict item t :
  add_item tree_dict item = Ok t → dir_node tree_dict → dir_node t.
Proof.
  unfold add_item.
  destruct (getitem item "path") as [p| |]; simpl; [|done..].
  destruct (split_slash p) as [ps| |]; simpl; [|done..].
  destruct ps as [|p0 ps]; [done|].
  intros Hd ?. eapply descend_dir_node; [|done|by right].
  intros ??. apply place_dir_node.
Qed.

Lemma add_items_dir_node items : ∀ tree_dict t,
  add_items tree_dict items = Ok t → dir_node tree_dict → dir_node t.
Proof.
  induction items as [|item rest IH]; intros tree_dict t; simpl.
  - by intros [= <-].
  - destruct (add_item tree_dict item) as [t1| |] eqn:H1; simpl; [|done..].
    intros Hrest Hd. eapply IH; [done|]. by eapply add_item_dir_node.
Qed.

Lemma tree_dict_of_dir_node file_list t :
  tree_dict_of file_list = Ok t → dir_node t.
Proof.
  unfold tree_dict_of. destruct (iter file_list) as [items| |]; simpl; [|done..].
  intros Hadd. eapply add_items_dir_node; [done|]. apply dir_node_empty.
Qed.

Lemma lookup_path_dir_node P : ∀ t v,
  t = VNone ∨ dir_node t → lookup_path t P = Some v → v = VNone ∨ dir_node v.
Proof.
  induction P as [|k P IH]; intros t v Ht; simpl.
  - by intros [= <-].
  - destruct t as [| | | | |d]; try done.
    destruct (d !! k) as [child|] eqn:Hk; [|done].
    destruct Ht as [?|Hd]; [done|].
    apply IH. by eapply dir_node_lookup.
Qed.

End builder_facts.

Section builder_paths.

Lemma getitem_item_of_path e :
  getitem (item_of e) "path" = Ok (VStr (entry_path e)).
Proof. unfold getitem, item_of. by rewrite lookup_insert_eq. Qed.

Lemma getitem_item_of_type e :
  getitem (item_of e) "type" = Ok (VStr (entry_type e)).
Proof.
  unfold getitem, item_of.
  rewrite lookup_insert_ne by done. by rewrite lookup_singleton_eq.
Qed.

Lemma place_item_of e name node :
  place (item_of e) name node = place_entry (is_tree e) name node.
Proof. unfold place. by rewrite getitem_item_of_type. Qed.

Lemma add_item_item_of t e : add_item t (item_of e) = add_entry e t.
Proof.
  unfold add_item, add_entry. rewrite getitem_item_of_path. simpl.
  pose proof (split_nonempty "/" (entry_path e)) as Hne.
  fold (parts e) in *. destruct (parts e) as [|p ps] eqn:Hps; [done|].
  f_equal. 
Qed.

Lemma setdefault_lookup (d : gmap string pyval) k v :
  setdefault d k v !! k = Some (default v (d !! k)).
Proof.
  unfold setdefault. destruct (d !! k) eqn:Hk; simpl; [done|].
  by rewrite lookup_insert_eq.
Qed.

Lemma setdefault_lookup_ne (d : gmap string pyval) k k' v :
  k ≠ k' → setdefault d k v !! k' = d !! k'.
Proof.
  intros Hne. unfold setdefault. destruct (d !! k); [done|].
  by rewrite lookup_insert_ne.
Qed.

Lemma insert_setdefault (d : gmap string pyval) k v w :
  <[k := w]> (setdefault d k v) = <[k := w]> d.
Proof.
  unfold setdefault. destruct (d !! k); [done|]. by rewrite insert_insert_eq.
Qed.

Lemma descend_cons d p ps final :
  descend (VDict d) (p :: ps) final
  = rbind (descend (default (VDict ∅) (d !! p)) ps final)
      (λ child', Ok (VDict (<[p := child']> d))).
Proof.
  simpl. rewrite setdefault_lookup.
  destruct (descend _ ps final); simpl; [|done..].
  by rewrite insert_setdefault.
Qed.

Lemma add_entry_ins e t :
  add_entry e t
  = ins (removelast (parts e)) (List.last (parts e) EmptyString) (is_tree e) t.
Proof. reflexivity. Qed.

Lemma parts_snoc e :
  removelast (parts e) ++ [List.last (parts e) EmptyString] = parts e.
Proof. apply removelast_snoc_last, split_nonempty. Qed.

Lemma ins_ok_dict dirs name tree t t' :
  ins dirs name tree t = Ok t' → ∃ d d', t = VDict d ∧ t' = VDict d'.
Proof.
  unfold ins. destruct dirs as [|p ps].
  - simpl. unfold place_entry. destruct tree, t; try done; intros [= <-]; eauto.
  - destruct t as [| | | | |d]; try done. rewrite descend_cons.
    destruct (descend _ ps _); simpl; [|done..]. intros [= <-]. eauto.
Qed.

Lemma ins_cons p ps name tree d :
  ins (p :: ps) name tree (VDict d)
  = rbind (ins ps name tree (default (VDict ∅) (d !! p)))
      (λ child', Ok (VDict (<[p := child']> d))).
Proof. apply descend_cons. Qed.

(** A successful insertion leaves a dict at every proper prefix of the
    path it walked. *)
Lemma ins_through dirs name tree : ∀ P t t',
  ins dirs name tree t = Ok t' →
  P `prefix_of` dirs →
  ∃ d, lookup_path t' P = Some (VDict d).
Proof.
  induction dirs as [|p ps IH]; intros P t t' Hins Hpre.
  - apply prefix_nil_inv in Hpre as ->.
    destruct (ins_ok_dict _ _ _ _ _ Hins) as (d & d' & -> & ->). simpl. eauto.
  - destruct P as [|k P].
    { destruct (ins_ok_dict _ _ _ _ _ Hins) as (d & d' & -> & ->). simpl. eauto. }
    apply prefix_cons_inv_1 in Hpre as Hk. apply prefix_cons_inv_2 in Hpre.
    subst k.
    destruct (ins_ok_dict _ _ _ _ _ Hins) as (d & d' & -> & ->).
    rewrite ins_cons in Hins.
    destruct (ins ps name tree _) as [child'| |] eqn:Hchild; simplify_eq/=.
    rewrite lookup_insert_eq. by eapply IH.
Qed.

(** A dict at [P] stays a dict, unless a file record is placed at [P]
    or above it. *)
Lemma ins_keeps_dict dirs name tree : ∀ P t t' d,
  ins dirs name tree t = Ok t' →
  lookup_path t P = Some (VDict d) →
  ¬ (tree = false ∧ (dirs ++ [name]) `prefix_of` P) →
  ∃ d', lookup_path t' P = Some (VDict d').
Proof.
  induction dirs as [|p ps IH]; intros P t t' d0 Hins HP Hno.
  - destruct (ins_ok_dict _ _ _ _ _ Hins) as (d & d' & -> & ->).
    destruct P as [|k P]; [simpl; eauto|].
    simpl in HP |- *. unfold ins in Hins. simpl in Hins.
    destruct (decide (k = name)) as [->|Hne].
    + destruct tree; simplify_eq/=.
      * rewrite setdefault_lookup. destruct (d !! name); simpl; eauto. done.
      * destruct Hno. split; [done|]. by apply prefix_cons, prefix_nil.
    + destruct tree; simplify_eq/=.
      * rewrite setdefault_lookup_ne by done. eauto.
      * rewrite lookup_insert_ne by done. eauto.
  - destruct (ins_ok_dict _ _ _ _ _ Hins) as (d & d' & -> & ->).
    destruct P as [|k P]; [simpl; eauto|].
    rewrite ins_cons in Hins.
    destruct (ins ps name tree _) as [child'| |] eqn:Hchild; simplify_eq/=.
    destruct (decide (k = p)) as [->|Hne].
    + rewrite lookup_insert_eq.
      destruct (d !! p) as [child|] eqn:Hp; [|done]. simpl in Hchild.
      eapply IH; [done..|]. intros [-> Hpre]. apply Hno. split; [done|].
      by apply prefix_cons.
    + rewrite lookup_insert_ne by done. eauto.
Qed.

(** A tree record leaves a dict at its own path, unless a leaf was
    there before. *)
Lemma ins_tree_dict dirs name : ∀ t t',
  ins dirs name true t = Ok t' →
  t = VNone ∨ dir_node t →
  lookup_path t (dirs ++ [name]) ≠ Some VNone →
  ∃ d', lookup_path t' (dirs ++ [name]) = Some (VDict d').
Proof.
  induction dirs as [|p ps IH]; intros t t' Hins Ht Hleaf.
  - destruct (ins_ok_dict _ _ _ _ _ Hins) as (d & d' & -> & ->).
    destruct Ht as [?|Hd]; [done|].
    unfold ins in Hins. simplify_eq/=. rewrite setdefault_lookup.
    destruct (d !! name) as [v|] eqn:Hv; simpl; [|eauto].
    destruct (dir_node_lookup _ _ _ Hd Hv) as [->|Hdv]; [done|].
    inversion Hdv. eauto.
  - destruct (ins_ok_dict _ _ _ _ _ Hins) as (d & d' & -> & ->).
    destruct Ht as [?|Hd]; [done|].
    rewrite ins_cons in Hins.
    destruct (ins ps name true _) as [child'| |] eqn:Hchild; simplify_eq/=.
    rewrite lookup_insert_eq. eapply IH; [done| |].
    + destruct (d !! p) as [child|] eqn:Hp; simpl.
      * by eapply dir_node_lookup.
      * right. apply dir_node_empty.
    + destruct (d !! p) as [child|] eqn:Hp; simpl; [done|].
      destruct ps; simpl; by rewrite ?lookup_empty.
Qed.

(** Every leaf after an insertion was a leaf before, or is the file
    record just placed. *)
Lemma ins_leaf_origin dirs name tree : ∀ Q t t',
  ins dirs name tree t = Ok t' →
  lookup_path t' Q = Some VNone →
  lookup_path t Q = Some VNone ∨ (tree = false ∧ dirs ++ [name] = Q).
Proof.
  induction dirs as [|p ps IH]; intros Q t t' Hins HQ.
  - destruct (ins_ok_dict _ _ _ _ _ Hins) as (d & d' & -> & ->).
    destruct Q as [|k Q]; [done|].
    unfold ins in Hins. simpl in Hins, HQ |- *.
    destruct (decide (k = name)) as [->|Hne].
    + destruct tree; simplify_eq/=.
      * rewrite setdefault_lookup in HQ.
        destruct (d !! name) as [v|] eqn:Hv; simpl in HQ; [by left|].
        destruct Q; simpl in HQ; [done|]. by rewrite lookup_empty in HQ.
      * rewrite lookup_insert_eq in HQ. destruct Q; [by right|done].
    + destruct tree; simplify_eq/=.
      * rewrite setdefault_lookup_ne in HQ by done. by left.
      * rewrite lookup_insert_ne in HQ by done. by left.
  - destruct (ins_ok_dict _ _ _ _ _ Hins) as (d & d' & -> & ->).
    destruct Q as [|k Q]; [done|].
    rewrite ins_cons in Hins.
    destruct (ins ps name tree _) as [child'| |] eqn:Hchild; simplify_eq/=.
    destruct (decide (k = p)) as [->|Hne].
    + rewrite lookup_insert_eq in HQ.
      destruct (IH _ _ _ Hchild HQ) as [Hleaf|[-> <-]]; [|by right].
      left. destruct (d !! p) as [child|]; [done|]. simpl in Hleaf.
      destruct Q; simpl in Hleaf; [done|]. by rewrite lookup_empty in Hleaf.
    + rewrite lookup_insert_ne in HQ by done. by left.
Qed.

Lemma add_entry_dir_node e t t' :
  add_entry e t = Ok t' → dir_node t → dir_node t'.
Proof. rewrite <-add_item_item_of. apply add_item_dir_node. Qed.

Lemma add_items_keep_directory (P : list string) (es : list TreeEntry) :
  ∀ t0 t,
    add_items t0 (item_of <$> es) = Ok t →
    dir_node t0 →
    (∀ e, e ∈ es → is_tree e = false → ¬ parts e `prefix_of` P) →
    (∃ d, lookup_path t0 P = Some (VDict d))
    ∨ (lookup_path t0 P ≠ Some VNone ∧ known_directory es P) →
    ∃ d, lookup_path t P = Some (VDict d).
Proof.
  induction es as [|e es IH]; intros t0 t Hadd Hd Hfiles Hcase.
  - simpl in Hadd. injection Hadd as <-.
    destruct Hcase as [?|[_ (e & He & _)]]; [done|]. by apply elem_of_nil in He.
  - rewrite fmap_cons in Hadd. simpl in Hadd.
    rewrite add_item_item_of in Hadd.
    destruct (add_entry e t0) as [t1| |] eqn:H1; simpl in Hadd; [|done..].
    assert (Hfile_e : ¬ (is_tree e = false
                         ∧ (removelast (parts e)
                            ++ [List.last (parts e) EmptyString]) `prefix_of` P)).
    { rewrite parts_snoc. intros [??]. eapply Hfiles; [|done..]. left. }
    eapply (IH t1); [done|by eapply add_entry_dir_node| |].
    { intros e' He'. apply Hfiles. by right. }
    rewrite add_entry_ins in H1.
    destruct Hcase as [[d HP]|[Hleaf (e' & He' & Hknown)]].
    { left. by eapply ins_keeps_dict. }
    apply elem_of_cons in He' as [->|He'].
    + left. destruct Hknown as [[Htree <-]|[Hpre Hne]].
      * rewrite Htree in H1. rewrite <-parts_snoc in Hleaf |- *.
        eapply ins_tree_dict; [done|by right|done].
      * eapply ins_through; [done|].
        destruct Hpre as [k Hk]. rewrite <-parts_snoc in Hk.
        destruct k as [|x k _] using rev_ind.
        { rewrite app_nil_r in Hk. by rewrite parts_snoc in Hk. }
        rewrite app_assoc in Hk. apply app_inj_tail in Hk as [-> _].
        by apply prefix_app_r.
    + right. split; [|by exists e'].
      intros Hleaf1.
      destruct (ins_leaf_origin _ _ _ _ _ _ H1 Hleaf1) as [?|[Hfile HP]]; [done|].
      apply Hfile_e. split; [done|]. by rewrite HP.
Qed.

Lemma ins_total_agrees dirs name tree : ∀ t t',
  ins dirs name tree t = Ok t' → ins_total dirs name tree t = t'.
Proof.
  induction dirs as [|p ps IH]; intros t t' Hins.
  - unfold ins in Hins. simpl in *. unfold place_entry in Hins.
    destruct tree, t; by simplify_eq/=.
  - destruct (ins_ok_dict _ _ _ _ _ Hins) as (d & d' & -> & ->).
    rewrite ins_cons in Hins.
    destruct (ins ps name tree _) as [child'| |] eqn:Hchild; simplify_eq/=.
    by rewrite (IH _ _ Hchild).
Qed.

Lemma ins_total_not_dict dirs name tree t :
  is_dict t = false → ins_total dirs name tree t = t.
Proof. destruct dirs, t; simpl; done. Qed.

Lemma ins_total_is_dict dirs name tree d :
  ∃ d', ins_total dirs name tree (VDict d) = VDict d'.
Proof. destruct dirs; simpl; eauto. Qed.

Lemma setdefault_present (d : gmap string pyval) k v w :
  d !! k = Some w → setdefault d k v = d.
Proof. unfold setdefault. by intros ->. Qed.

Ltac not_dict :=
  repeat match goal with
  | |- context [ins_total ?ds ?n ?tr ?v] =>
      lazymatch v with
      | VDict _ => fail
      | ins_total _ _ _ _ => fail
      | _ => rewrite (ins_total_not_dict ds n tr v) by done
      end
  end.

Lemma ins_total_comm_nil dirs2 name1 name2 tree1 tree2 t :
  ins_total dirs2 name2 tree2 (ins_total [] name1 tree1 t)
  = ins_total [] name1 tree1 (ins_total dirs2 name2 tree2 t).
Proof.
  destruct t as [| | | | |d]; [by not_dict..|].
  destruct dirs2 as [|p2 ps2]; simpl.
  + (* both records are placed in this dict *)
    f_equal. destruct (decide (name1 = name2)) as [->|Hne].
    * destruct tree1, tree2; unfold setdefault;
        repeat (rewrite ?lookup_insert_eq, ?insert_insert_eq;
                try case_match; simplify_eq/=); done.
    * destruct tree1, tree2; unfold setdefault;
        rewrite ?lookup_insert_ne by done;
        repeat case_match; simplify_eq/=;
        rewrite ?lookup_insert_ne in * by done; simplify_eq/=;
        try done; by apply insert_insert_ne.
  + (* the first is placed here, the second walks on *)
    destruct (decide (name1 = p2)) as [->|Hne].
    * destruct tree1.
      -- rewrite setdefault_lookup, insert_setdefault.
         erewrite (setdefault_present (<[p2:=_]> d));
           [|by rewrite lookup_insert_eq].
         by destruct (d !! p2).
      -- rewrite lookup_insert_eq, !insert_insert_eq. simpl.
         by not_dict.
    * destruct tree1.
      -- rewrite setdefault_lookup_ne by done. f_equal.
         unfold setdefault. rewrite lookup_insert_ne by done.
         destruct (d !! name1); [done|]. by apply insert_insert_ne.
      -- rewrite lookup_insert_ne by done. f_equal.
         by apply insert_insert_ne.
Qed.

Lemma ins_total_comm dirs1 : ∀ dirs2 name1 name2 tree1 tree2 t,
  ins_total dirs2 name2 tree2 (ins_total dirs1 name1 tree1 t)
  = ins_total dirs1 name1 tree1 (ins_total dirs2 name2 tree2 t).
Proof.
  induction dirs1 as [|p1 ps1 IH]; intros dirs2 name1 name2 tree1 tree2 t.
  { apply ins_total_comm_nil. }
  destruct dirs2 as [|p2 ps2].
  { symmetry. apply ins_total_comm_nil. }
  destruct t as [| | | | |d]; [by not_dict..|]. simpl.
  destruct (decide (p1 = p2)) as [->|Hne].
  - rewrite !lookup_insert_eq, !insert_insert_eq. simpl. by rewrite IH.
  - rewrite !lookup_insert_ne by done. f_equal. by apply insert_insert_ne.
Qed.

Lemma add_entry_total_comm t e1 e2 :
  add_entry_total (add_entry_total t e1) e2
  = add_entry_total (add_entry_total t e2) e1.
Proof. apply ins_total_comm. Qed.

Lemma foldl_add_entry_total_perm es1 es2 :
  es1 ≡ₚ es2 →
  ∀ t, foldl add_entry_total t es1 = foldl add_entry_total t es2.
Proof.
  induction 1 as [|e es1 es2 _ IH|e1 e2 es|es1 es2 es3 _ IH1 _ IH2]; intros t;
    simpl.
  - done.
  - apply IH.
  - by rewrite add_entry_total_comm.
  - by rewrite IH1.
Qed.

Lemma add_items_total es : ∀ t t',
  add_items t (item_of <$> es) = Ok t' → foldl add_entry_total t es = t'.
Proof.
  induction es as [|e es IH]; intros t t' Hadd; simpl in *.
  - by injection Hadd.
  - rewrite add_item_item_of in Hadd.
    destruct (add_entry e t) as [t1| |] eqn:H1; simpl in Hadd; [|done..].
    rewrite add_entry_ins in H1. apply ins_total_agrees in H1.
    unfold add_entry_total at 2. rewrite H1. by apply IH.
Qed.

(** Strings *)

Lemma append_assoc (a b c : string) : (a +:+ b) +:+ c = a +:+ (b +:+ c).
Proof.
  induction a as [|x a IH]; [done|].
  change (String x ((a +:+ b) +:+ c) = String x (a +:+ (b +:+ c))).
  by rewrite IH.
Qed.

Lemma append_nil_r (a : string) : a +:+ EmptyString = a.
Proof.
  induction a as [|x a IH]; [done|].
  change (String x (a +:+ EmptyString) = String x a). by rewrite IH.
Qed.

Lemma concat_strings_app l1 l2 :
  concat_strings (l1 ++ l2) = concat_strings l1 +:+ concat_strings l2.
Proof.
  induction l1 as [|x l1 IH]; simpl; [done|]. by rewrite IH, append_assoc.
Qed.

Lemma indent_of_snoc (ancestors : list bool) (is_last : bool) :
  indent_of (ancestors ++ [is_last]) = spec_prefix ancestors.
Proof.
  unfold indent_of. rewrite List.removelast_last.
  assert (Hgen : ∀ acc,
    foldl (λ indent (b : bool), indent +:+ (if b then "    " else "│   "))
      acc ancestors = acc +:+ spec_prefix ancestors).
  { induction ancestors as [|b l IH]; intros acc; simpl.
    - by rewrite append_nil_r.
    - rewrite IH. by rewrite append_assoc. }
  by rewrite Hgen.
Qed.

Lemma line_of_child node key ancestors is_last :
  line_of node (Some key) (ancestors ++ [is_last])
  = Ok (spec_line ancestors is_last key (is_dict node)).
Proof.
  unfold line_of. rewrite last_snoc, indent_of_snoc. unfold spec_line.
  destruct (is_dict node); [|done].
  do 4 f_equal.
Qed.

(** Sizes *)

Lemma size_children_delete (d : gmap string pyval) k c :
  d !! k = Some c →
  map_fold (λ _ c n, size_of c + n) 0 d
  = size_of c + map_fold (λ _ c n, size_of c + n) 0 (delete k d).
Proof.
  intros Hk.
  apply (map_fold_delete_L (λ (_ : string) (c : pyval) (n : nat), size_of c + n)
           0 k c d); [|done].
  intros. lia.
Qed.

Lemma size_children_bound (keys : list string) : ∀ (d : gmap string pyval),
  NoDup keys →
  (∀ k, k ∈ keys → is_Some (d !! k)) →
  (foldr (λ k n, size_of (default VNone (d !! k)) + n) 0 keys
   ≤ map_fold (λ _ c n, size_of c + n) 0 d)%nat.
Proof.
  induction keys as [|k ks IH]; intros d Hnd Hin; simpl; [lia|].
  apply NoDup_cons in Hnd as [Hk Hnd].
  destruct (Hin k) as [c Hc]; [left|].
  rewrite (size_children_delete d k c Hc), Hc. simpl.
  apply Nat.add_le_mono_l.
  etrans; [|apply (IH (delete k d) Hnd)].
  - apply Nat.eq_le_incl. clear IH Hnd.
    induction ks as [|k' ks IH']; simpl; [done|].
    rewrite lookup_delete_ne by (intros ->; apply Hk; left).
    f_equal. apply IH'.
    + intros ?. apply Hk. by right.
    + intros k'' ?. apply Hin. apply elem_of_cons in H as [->|?]; [left|].
      right. by right.
  - intros k' Hk'. rewrite lookup_delete_ne by (intros ->; done).
    apply Hin. by right.
Qed.

(** The listing *)

Lemma elem_of_folders_of (d : gmap string pyval) k :
  k ∈ folders_of d ↔ ∃ d', d !! k = Some (VDict d').
Proof.
  unfold folders_of, sorted. rewrite merge_sort_Permutation.
  rewrite list_elem_of_fmap. split.
  - intros ([k' v] & -> & Hin). apply list_elem_of_filter in Hin as [Hdict Hin].
    apply elem_of_map_to_list in Hin. simpl in *. destruct v; try done. eauto.
  - intros [d' Hk]. exists (k, VDict d'). split; [done|].
    apply list_elem_of_filter. split; [done|]. by apply elem_of_map_to_list.
Qed.

Lemma elem_of_files_of (d : gmap string pyval) k :
  k ∈ files_of d ↔ d !! k = Some VNone.
Proof.
  unfold files_of, sorted. rewrite merge_sort_Permutation.
  rewrite list_elem_of_fmap. split.
  - intros ([k' v] & -> & Hin). apply list_elem_of_filter in Hin as [Hnone Hin].
    apply elem_of_map_to_list in Hin. simpl in *. by destruct v.
  - intros Hk. exists (k, VNone). split; [done|].
    apply list_elem_of_filter. split; [done|]. by apply elem_of_map_to_list.
Qed.

Lemma NoDup_filter_keys (d : gmap string pyval) (P : string * pyval → Prop)
    `{∀ x, Decision (P x)} :
  NoDup ((filter P (map_to_list d)).*1).
Proof.
  pose proof (NoDup_fst_map_to_list d) as Hnd.
  induction (map_to_list d) as [|[k v] l IH]; simpl; [constructor|].
  simpl in Hnd. apply NoDup_cons in Hnd as [Hk Hnd].
  rewrite filter_cons. destruct (decide (P (k, v))); [|by apply IH].
  simpl. apply NoDup_cons. split; [|by apply IH].
  intros Hin. apply Hk. apply list_elem_of_fmap in Hin as (x & -> & Hx).
  apply list_elem_of_filter in Hx as [_ Hx]. apply list_elem_of_fmap. eauto.
Qed.

Lemma NoDup_folders_of (d : gmap string pyval) : NoDup (folders_of d).
Proof.
  unfold folders_of, sorted. rewrite merge_sort_Permutation.
  apply NoDup_filter_keys.
Qed.

Lemma NoDup_files_of (d : gmap string pyval) : NoDup (files_of d).
Proof.
  unfold files_of, sorted. rewrite merge_sort_Permutation.
  apply NoDup_filter_keys.
Qed.

Lemma sorted_StronglySorted (l : list string) :
  StronglySorted String.le (sorted l).
Proof. apply StronglySorted_merge_sort; apply _. Qed.

Lemma NoDup_listing (d : gmap string pyval) : NoDup (listing d).
Proof.
  apply NoDup_app. split; [apply NoDup_folders_of|].
  split; [|apply NoDup_files_of].
  intros k [d' Hd]%elem_of_folders_of Hf%elem_of_files_of. congruence.
Qed.

Lemma listing_lookup (d : gmap string pyval) k :
  k ∈ listing d → is_Some (d !! k).
Proof.
  intros [[d' ->]%elem_of_folders_of| ->%elem_of_files_of]%elem_of_app; eauto.
Qed.

(** Pushing the children *)

Lemma push_children_prefix d keys depth_info stack pre :
  (∀ k, k ∈ keys → is_Some (d !! k)) →
  pre `prefix_of` keys →
  push_children d keys depth_info (rev (seq 0 (List.length pre))) stack
  = Ok (imap (child_frame d (List.length keys) depth_info) pre ++ stack).
Proof.
  intros Hin. revert stack.
  induction pre as [|key pre IH] using rev_ind; intros stack Hpre; [done|].
  rewrite length_app. simpl. rewrite seq_app, rev_app_distr. simpl.
  assert (Hkey : keys !! List.length pre = Some key).
  { destruct Hpre as [suf ->]. rewrite <-app_assoc. simpl.
    by apply list_lookup_middle. }
  rewrite Hkey.
  destruct (Hin key) as [child Hchild].
  { apply list_elem_of_lookup. eauto. }
  rewrite Hchild. rewrite IH.
  - rewrite imap_app. simpl. rewrite <-app_assoc. simpl.
    unfold child_frame at 3. rewrite Hchild. simpl.
    by rewrite Nat.add_0_r.
  - etrans; [|done]. by apply prefix_app_r.
Qed.

Lemma push_children_all d keys depth_info stack :
  (∀ k, k ∈ keys → is_Some (d !! k)) →
  push_children d keys depth_info (rev (seq 0 (List.length keys))) stack
  = Ok (imap (child_frame d (List.length keys) depth_info) keys ++ stack).
Proof. intros Hin. by apply push_children_prefix. Qed.

Lemma stack_size_app s1 s2 :
  stack_size (s1 ++ s2) = stack_size s1 + stack_size s2.
Proof. induction s1 as [|f s1 IH]; simpl; [done|]. rewrite IH. lia. Qed.

Lemma stack_size_children d n depth_info keys :
  stack_size (imap (child_frame d n depth_info) keys)
  = foldr (λ k m, size_of (default VNone (d !! k)) + m) 0 keys.
Proof.
  assert (Hgen : ∀ (g : nat → string → frame),
    (∀ i k, (g i k).1.1 = default VNone (d !! k)) →
    stack_size (imap g keys)
    = foldr (λ k m, size_of (default VNone (d !! k)) + m) 0 keys).
  { induction keys as [|k ks IH]; intros g Hg; simpl; [done|].
    rewrite Hg. f_equal. apply IH. intros i k'. apply Hg. }
  by apply Hgen.
Qed.

Lemma render_spec_dict (d : gmap string pyval) (ancestors : list bool) :
  render_spec (VDict d) ancestors
  = concat_strings
      (frame_text
         <$> imap (child_frame d (List.length (listing d)) ancestors)
               (listing d)).
Proof.
  simpl. f_equal. rewrite fmap_imap. apply imap_ext. intros i key Hkey. simpl.
  destruct (listing_lookup d key) as [child Hchild].
  { apply list_elem_of_lookup. eauto. }
  rewrite lookup_fmap, Hchild. simpl.
  unfold frame_text, child_frame. cbn [fst snd]. rewrite Hchild.
  change (default VNone (Some child)) with child.
  by rewrite line_of_child.
Qed.

Lemma child_frames_ok d n depth_info keys :
  Forall frame_ok (imap (child_frame d n depth_info) keys).
Proof.
  apply Forall_forall. intros f Hf.
  apply list_elem_of_lookup in Hf as [i Hi].
  rewrite list_lookup_imap in Hi.
  destruct (keys !! i) as [key|]; simplify_eq/=.
  right. simpl. by destruct depth_info.
Qed.

Lemma size_of_pos (v : pyval) : (0 < size_of v)%nat.
Proof. destruct v; simpl; lia. Qed.

(** The loop emits, for the entries on the stack from the top down,
    each entry's line followed by the lines of everything below it. *)
Lemma render_loop_spec fuel : ∀ stack tree_string,
  Forall frame_ok stack →
  (stack_size stack ≤ fuel)%nat →
  render_loop fuel stack tree_string
  = Ok (tree_string +:+ concat_strings (frame_text <$> stack)).
Proof.
  induction fuel as [|fuel IH]; intros stack tree_string Hok Hsize.
  - destruct stack as [|[[node name] depth_info] stack]; simpl.
    + by rewrite append_nil_r.
    + simpl in Hsize. pose proof (size_of_pos node). lia.
  - destruct stack as [|[[node name] depth_info] stack].
    { simpl. by rewrite append_nil_r. }
    apply Forall_cons in Hok as [Hf Hok]. simpl in Hsize.
    cbn [render_loop].
    assert (∃ line, line_of node name depth_info = Ok line) as [line Hline].
    { destruct Hf as [Hname|Hdepth]; simpl in *.
      - subst name. simpl. eauto.
      - destruct depth_info as [|b l _] using rev_ind; [done|].
        destruct name as [name|]; [|by simpl; eauto].
        rewrite line_of_child. eauto. }
    rewrite Hline. cbn [rbind].
    assert (Htext : ∀ rest,
      tree_string +:+ concat_strings
        (frame_text <$> (node, name, depth_info) :: rest)
      = (tree_string +:+ line)
        +:+ (render_spec node depth_info +:+ concat_strings (frame_text <$> rest))).
    { intros rest. rewrite fmap_cons. simpl. unfold frame_text at 1. simpl.
      rewrite Hline. by rewrite !append_assoc. }
    rewrite Htext.
    destruct node as [| | | | |d];
      try (rewrite IH by (done || (simpl in Hsize; lia)); done).
    rewrite push_children_all by apply listing_lookup. cbn [rbind].
    rewrite IH.
    + rewrite fmap_app, concat_strings_app. by rewrite render_spec_dict.
    + apply Forall_app. split; [apply child_frames_ok|done].
    + rewrite stack_size_app, stack_size_children.
      pose proof (size_children_bound (listing d) d (NoDup_listing d)
                    (listing_lookup d)).
      unfold listing in *. simpl in Hsize. lia.
Qed.

Lemma tree_string_of_spec (tree_dict : pyval) :
  tree_string_of tree_dict
  = Ok ("Root" +:+ nl +:+ render_spec tree_dict []).
Proof.
  unfold tree_string_of. rewrite render_loop_spec.
  - simpl. unfold frame_text. simpl. by rewrite append_nil_r.
  - constructor; [by left|constructor].
  - simpl. lia.
Qed.

End builder_paths.

Section builder_claims.

(** C10: whenever the builder completes, every value reachable in the
    returned structure by nested lookups, at any depth, is a dict or
    [None]. *)
Theorem tree_dict_values_are_dicts_or_none
    (file_list t : pyval) (P : list string) (v : pyval) :
  tree_dict_of file_list = Ok t →
  lookup_path t P = Some v →
  (∃ d, v = VDict d) ∨ v = VNone.
Proof.
  intros Hbuild Hlookup.
  destruct (lookup_path_dir_node P t v) as [->|Hv]; [|done|by right|].
  - right. by eapply tree_dict_of_dir_node.
  - left. inversion Hv. eauto.
Qed.

End builder_claims.

Lemma tree_dict_values_are_dicts_or_none_witness :
  (∃ d, VDict {[ "c.py" := VNone ]} = VDict d)
  ∨ VDict {[ "c.py" := VNone ]} = VNone.
Proof.
  apply (tree_dict_values_are_dicts_or_none
           (VList (item_of <$> example_entries))
           (VDict {[ "src" := VDict {[ "a.py" := VNone;
                                       "b" := VDict {[ "c.py" := VNone ]} ]} ]})
           ["src"; "b"]);
    vm_compute; reflexivity.
Defined.

(** C2 as stated fails: a tree record for [docs] followed by a
    non-tree record for the same path leaves [docs] a file leaf; so does
    a non-tree record for [docs] that follows a record below [docs]. *)
Lemma directory_downgraded_by_later_file :
  let es1 := [ {| entry_path := "docs"; entry_type := "tree" |};
               {| entry_path := "docs"; entry_type := "blob" |} ] in
  let es2 := [ {| entry_path := "docs/a.md"; entry_type := "blob" |};
               {| entry_path := "docs"; entry_type := "blob" |} ] in
  (known_directory es1 ["docs"]
   ∧ tree_dict_of (VList (item_of <$> es1)) = Ok (VDict {[ "docs" := VNone ]}))
  ∧ (known_directory es2 ["docs"]
     ∧ tree_dict_of (VList (item_of <$> es2)) = Ok (VDict {[ "docs" := VNone ]}))
  ∧ lookup_path (VDict {[ "docs" := VNone ]}) ["docs"] = Some VNone.
Proof.
  repeat split; try (vm_compute; reflexivity).
  - eexists. split; [left|]. left. by vm_compute.
  - eexists. split; [left|]. right. split; [|by vm_compute].
    exists ["a.md"]. by vm_compute.
Qed.

(** C2 (amended): whenever the builder completes, a path known to be a
    directory (a tree record has it, or it is a proper prefix of some
    record's path) is a dict in the result, provided no non-tree record
    of the listing has this path or one of its prefixes as its path. *)
Theorem known_directory_stays_directory
    (es : list TreeEntry) (t : pyval) (P : list string) :
  tree_dict_of (VList (item_of <$> es)) = Ok t →
  known_directory es P →
  (∀ e, e ∈ es → is_tree e = false → ¬ parts e `prefix_of` P) →
  ∃ d, lookup_path t P = Some (VDict d).
Proof.
  intros Hbuild Hknown Hfiles. unfold tree_dict_of in Hbuild. simpl in Hbuild.
  eapply add_items_keep_directory; [done|apply dir_node_empty|done|].
  right. split; [|done].
  destruct P; simpl; [done|]. by rewrite lookup_empty.
Qed.

Lemma known_directory_stays_directory_witness :
  ∃ d, lookup_path
         (VDict {[ "docs" := VDict {[ "a.md" := VNone ]} ]}) ["docs"]
       = Some (VDict d).
Proof.
  apply (known_directory_stays_directory
           [ {| entry_path := "docs"; entry_type := "tree" |};
             {| entry_path := "docs/a.md"; entry_type := "blob" |} ]).
  - vm_compute; reflexivity.
  - eexists. split; [left|]. left. by vm_compute.
  - intros e He Hfile [k Hk].
    apply elem_of_cons in He as [->|He]; [by vm_compute in Hfile|].
    apply list_elem_of_singleton in He as ->. by vm_compute in Hk.
Defined.

(** C4 as stated fails: of two orders of the same two records one
    raises and the other returns. *)
Lemma permuted_listing_may_raise :
  let es1 := [ {| entry_path := "a"; entry_type := "blob" |};
               {| entry_path := "a/b"; entry_type := "blob" |} ] in
  let es2 := [ {| entry_path := "a/b"; entry_type := "blob" |};
               {| entry_path := "a"; entry_type := "blob" |} ] in
  es1 ≡ₚ es2
  ∧ tree_dict_of (VList (item_of <$> es1)) = Raise TypeError
  ∧ tree_dict_of (VList (item_of <$> es2)) = Ok (VDict {[ "a" := VNone ]}).
Proof. repeat split; [apply perm_swap|vm_compute; reflexivity..]. Qed.

(** C4 (amended): for two listings that are permutations of each other
    and on both of which the builder completes, the nested structures
    are equal and so are the rendered strings. *)
Theorem permuted_listings_build_equal_trees
    (es1 es2 : list TreeEntry) (t1 t2 : pyval) :
  es1 ≡ₚ es2 →
  tree_dict_of (VList (item_of <$> es1)) = Ok t1 →
  tree_dict_of (VList (item_of <$> es2)) = Ok t2 →
  t1 = t2 ∧ tree_string_of t1 = tree_string_of t2.
Proof.
  intros Hperm H1 H2. unfold tree_dict_of in H1, H2. simpl in H1, H2.
  apply add_items_total in H1, H2.
  assert (t1 = t2) as ->; [|done].
  rewrite <-H1, <-H2. by apply foldl_add_entry_total_perm.
Qed.

Lemma permuted_listings_build_equal_trees_witness :
  VDict {[ "src" := VDict {[ "a.py" := VNone;
                             "b" := VDict {[ "c.py" := VNone ]} ]} ]}
  = VDict {[ "src" := VDict {[ "b" := VDict {[ "c.py" := VNone ]};
                               "a.py" := VNone ]} ]}
  ∧ tree_string_of
      (VDict {[ "src" := VDict {[ "a.py" := VNone;
                                  "b" := VDict {[ "c.py" := VNone ]} ]} ]})
    = tree_string_of
        (VDict {[ "src" := VDict {[ "b" := VDict {[ "c.py" := VNone ]};
                                    "a.py" := VNone ]} ]}).
Proof.
  apply (permuted_listings_build_equal_trees
           example_entries (rev example_entries)).
  - apply perm_swap.
  - vm_compute; reflexivity.
  - vm_compute; reflexivity.
Defined.

(** C3: the string returned for a tree is ["Root"] followed by the
    recursive rendering [render_spec], which lists the children of
    every directory in the order [listing]: the keys whose value is a
    dict, in ascending order without repetition, followed by the keys
    whose value is [None], in ascending order without repetition. *)
Theorem render_lists_directories_before_files (tree_dict : pyval) :
  tree_string_of tree_dict = Ok ("Root" +:+ nl +:+ render_spec tree_dict [])
  ∧ ∀ d : gmap string pyval,
      listing d = folders_of d ++ files_of d
      ∧ StronglySorted String.le (folders_of d) ∧ NoDup (folders_of d)
      ∧ StronglySorted String.le (files_of d) ∧ NoDup (files_of d)
      ∧ (∀ k, k ∈ folders_of d ↔ ∃ d', d !! k = Some (VDict d'))
      ∧ (∀ k, k ∈ files_of d ↔ d !! k = Some VNone).
Proof.
  split; [apply tree_string_of_spec|]. intros d.
  split; [done|].
  split; [apply sorted_StronglySorted|].
  split; [apply NoDup_folders_of|].
  split; [apply sorted_StronglySorted|].
  split; [apply NoDup_files_of|].
  split; [apply elem_of_folders_of|apply elem_of_files_of].
Qed.

Section url_text.
Import PyStr UrlLib.

Lemma find_free c s : contains c s = false → find c s = None.
Proof.
  induction s as [|x s IH]; simpl; [done|].
  intros [Hx Hs]%orb_false_iff. rewrite Hx. by rewrite IH.
Qed.

Lemma remove_free c s : contains c s = false → remove c s = s.
Proof.
  induction s as [|x s IH]; simpl; [done|].
  intros [Hx Hs]%orb_false_iff. rewrite Hx. by rewrite IH.
Qed.

Lemma find_app c a b :
  find c (a +:+ b)
  = match find c a with
    | Some i => Some i
    | None => (λ i, String.length a + i) <$> find c b
    end.
Proof.
  induction a as [|x a IH].
  - change (EmptyString +:+ b) with b. simpl. by destruct (find c b).
  - change (String x a +:+ b) with (String x (a +:+ b)). simpl.
    destruct (eqc x c); [done|]. rewrite IH.
    destruct (find c a); [done|]. by destruct (find c b).
Qed.

Lemma remove_app c a b : remove c (a +:+ b) = remove c a +:+ remove c b.
Proof.
  induction a as [|x a IH]; [done|].
  change (String x a +:+ b) with (String x (a +:+ b)). simpl.
  destruct (eqc x c); [done|]. by rewrite IH.
Qed.

Lemma contains_app c a b :
  contains c (a +:+ b) = contains c a || contains c b.
Proof.
  induction a as [|x a IH]; [done|].
  change (String x a +:+ b) with (String x (a +:+ b)). simpl.
  by rewrite IH, orb_assoc.
Qed.

Lemma eqc_sym a b : eqc a b = eqc b a.
Proof. apply Ascii.eqb_sym. Qed.

Lemma lstrip_slash_free a b :
  contains "/" a = false → a ≠ EmptyString →
  lstrip (eqc "/") (a +:+ b) = a +:+ b.
Proof.
  destruct a as [|x a]; [done|]. intros [Hx _]%orb_false_iff _.
  change (String x a +:+ b) with (String x (a +:+ b)). cbn [lstrip].
  by rewrite eqc_sym, Hx.
Qed.

Lemma rstrip_slash_free a b :
  contains "/" a = false → a ≠ EmptyString →
  rstrip (eqc "/") (a +:+ b) = a +:+ rstrip (eqc "/") b.
Proof.
  induction a as [|x a IH]; [done|]. intros [Hx Ha]%orb_false_iff _.
  change (String x a +:+ b) with (String x (a +:+ b)).
  change (String x a +:+ rstrip (eqc "/") b)
    with (String x (a +:+ rstrip (eqc "/") b)).
  cbn [rstrip]. rewrite (eqc_sym "/" x), Hx.
  destruct a as [|y a].
  - change (EmptyString +:+ b) with b.
    change (EmptyString +:+ rstrip (eqc "/") b) with (rstrip (eqc "/") b).
    by destruct (rstrip (eqc "/") b).
  - rewrite IH by done.
    by change (String y a +:+ rstrip (eqc "/") b)
      with (String y (a +:+ rstrip (eqc "/") b)).
Qed.

Lemma split_slash_free_cons a b :
  contains "/" a = false →
  split "/" (a +:+ String "/" b) = a :: split "/" b.
Proof.
  induction a as [|x a IH]; intros Ha.
  - change (EmptyString +:+ String "/" b) with (String "/" b). done.
  - apply orb_false_iff in Ha as [Hx Ha].
    change (String x a +:+ String "/" b) with (String x (a +:+ String "/" b)).
    cbn [split]. rewrite Hx, IH by done. done.
Qed.

Lemma split_slash_free a : contains "/" a = false → split "/" a = [a].
Proof.
  induction a as [|x a IH]; [done|]. intros [Hx Ha]%orb_false_iff.
  cbn [split]. by rewrite Hx, IH.
Qed.

Lemma rstrip_segments_tail t :
  segments_tail t → segments_tail (rstrip (eqc "/") t).
Proof.
  intros [->|[u ->]]; [by left|]. cbn [rstrip].
  destruct (rstrip (eqc "/") u); [|right; eauto].
  change (eqc "/" "/") with true. by left.
Qed.

Lemma split_with_tail a t :
  contains "/" a = false → segments_tail t →
  ∃ rest, split "/" (a +:+ t) = a :: rest.
Proof.
  intros Ha [->|[u ->]].
  - exists []. rewrite append_nil_r. by apply split_slash_free.
  - eexists. by apply split_slash_free_cons.
Qed.

Lemma clean_app a b : clean a → clean b → clean (a +:+ b).
Proof.
  unfold clean. rewrite !contains_app.
  intros (-> & -> & -> & -> & -> & ->) (-> & -> & -> & -> & -> & ->). done.
Qed.

Section parse_syntax.
Context {checks : UrlChecks}.

Lemma unsafe_bytes_github (Y : string) :
  clean Y →
  foldl (λ u b, remove b u) ("https://github.com/" +:+ Y) unsafe_url_bytes
  = "https://github.com/" +:+ Y.
Proof.
  intros (_ & _ & _ & Ht & Hr & Hn). unfold unsafe_url_bytes. cbn [foldl].
  fold tab cr lf.
  rewrite (remove_app tab), (remove_free tab Y Ht).
  change (remove tab "https://github.com/") with "https://github.com/".
  rewrite (remove_app cr), (remove_free cr Y Hr).
  change (remove cr "https://github.com/") with "https://github.com/".
  rewrite (remove_app lf), (remove_free lf Y Hn).
  reflexivity.
Qed.

Lemma splitnetloc_github (Y : string) :
  clean Y →
  splitnetloc ("//github.com/" +:+ Y) 2 = ("github.com", "/" +:+ Y).
Proof.
  intros (Hq & Hh & _). unfold splitnetloc, find_from. cbn [foldl].
  change (drop 2 ("//github.com/" +:+ Y)) with ("github.com/" +:+ Y).
  rewrite (find_app "/"), (find_app "?"), (find_app "#").
  change (find "/" "github.com/") with (Some 10).
  change (find "?" "github.com/") with (@None nat).
  change (find "#" "github.com/") with (@None nat).
  rewrite (find_free "?" Y Hq), (find_free "#" Y Hh).
  cbn [fmap option_fmap option_map].
  change (String.length ("//github.com/" +:+ Y))
    with (S (S (S (S (S (S (S (S (S (S (S (S (S (String.length Y)))))))))))))).
  change (Nat.min _ (2 + 10) - 2) with 10.
  change (Nat.min _ (2 + 10)) with 12.
  reflexivity.
Qed.

Lemma urlparse_github (Y : string) :
  clean Y →
  urlparse ("https://github.com/" +:+ Y)
  = Ok {| scheme := "https"; netloc := "github.com"; path := "/" +:+ Y;
          params := EmptyString; query := EmptyString;
          fragment := EmptyString |}.
Proof.
  intros Hclean. pose proof Hclean as (Hq & Hh & Hs & _).
  assert (Hq' : find "?" ("/" +:+ Y) = None).
  { by rewrite find_app, (find_free "?" Y Hq). }
  assert (Hh' : find "#" ("/" +:+ Y) = None).
  { by rewrite find_app, (find_free "#" Y Hh). }
  assert (Hs' : contains ";" ("/" +:+ Y) = false).
  { by rewrite contains_app, Hs. }
  unfold urlparse, urlsplit.
  change (lstrip c0_control_or_space ("https://github.com/" +:+ Y))
    with ("https://github.com/" +:+ Y).
  rewrite unsafe_bytes_github by done.
  change (split_scheme ("https://github.com/" +:+ Y))
    with ("https", "//github.com/" +:+ Y).
  cbv beta iota zeta.
  change (startswith "//" ("//github.com/" +:+ Y)) with true.
  cbv beta iota zeta.
  rewrite splitnetloc_github by done.
  cbv beta iota zeta.
  change (contains "[" "github.com") with false.
  change (contains "]" "github.com") with false.
  cbn [andb orb negb rbind].
  unfold split_once. rewrite Hh'. rewrite Hq'.
  cbn [rbind]. change (checknetloc "github.com") with (Ok tt).
  cbn [rbind]. rewrite Hs'.
  by rewrite andb_false_r.
Qed.

(** X3: the validator accepts every URL written
    [https://github.com/<owner>/<repo><further segments>] with a
    non-empty owner and repository name free of slashes, where no part
    holds a question mark, a hash, a semicolon, a tab, a carriage
    return or a line feed, and returns this owner and this name. *)
Lemma parse_github_url_syntax (owner repo tail : string) :
  owner ≠ EmptyString → contains "/" owner = false → clean owner →
  repo ≠ EmptyString → contains "/" repo = false → clean repo →
  segments_tail tail → clean tail →
  parse_github_repo_url
    ("https://github.com/" +:+ owner +:+ "/" +:+ repo +:+ tail)
  = Ok (Some owner, Some repo).
Proof.
  intros Ho Hos Hoc Hr Hrs Hrc Htail Htc.
  unfold parse_github_repo_url.
  rewrite urlparse_github.
  2:{ apply clean_app; [done|]. apply (clean_app "/"); [by repeat split|].
      by apply clean_app. }
  cbn [rbind scheme netloc path].
  change (negb (String.eqb "https" "https")) with false.
  change (negb (String.eqb "github.com" "github.com")) with false.
  cbv beta iota.
  unfold strip.
  change ("/" +:+ owner +:+ "/" +:+ repo +:+ tail)
    with (String "/" (owner +:+ String "/" (repo +:+ tail))).
  change (lstrip (eqc "/") (String "/" ?s)) with (lstrip (eqc "/") s).
  rewrite lstrip_slash_free by done.
  rewrite rstrip_slash_free by done.
  assert (Hrest : rstrip (eqc "/") (String "/" (repo +:+ tail))
                  = String "/" (repo +:+ rstrip (eqc "/") tail)).
  { cbn [rstrip]. rewrite rstrip_slash_free by done.
    destruct repo; [done|]. done. }
  rewrite Hrest, split_slash_free_cons by done.
  destruct (split_with_tail repo (rstrip (eqc "/") tail) Hrs
              (rstrip_segments_tail _ Htail)) as [rest ->].
  cbn [List.length Nat.ltb Nat.leb].
  apply truthy_nonempty in Ho, Hr. by rewrite Ho, Hr.
Qed.

End parse_syntax.

End url_text.

Section public_functions.
Context {checks : UrlChecks} {builtin : StrBuiltin} {world : World}.

(** X10: the public functions compose: when [url_tree_list] returns a
    listing on which the builder completes, [url_tree_dict] returns the
    built tree and [url_tree_string] its rendering, directories before
    files at every level, after the same requests. *)
Lemma url_tree_string_of_listing (_url : string) (log log' : list request)
    (file_list t : pyval) :
  url_tree_list _url log = (Ok file_list, log') →
  file_list ≠ VNone →
  tree_dict_of file_list = Ok t →
  url_tree_dict _url log = (Ok t, log')
  ∧ url_tree_string _url log
    = (Ok (VStr ("Root" +:+ nl +:+ render_spec t [])), log').
Proof.
  intros Hlist Hnone Hbuild.
  assert (Hdict : url_tree_dict _url log = (Ok t, log')).
  { unfold url_tree_dict, bind. rewrite Hlist.
    destruct file_list; try done; unfold lift; by rewrite Hbuild. }
  split; [done|].
  unfold url_tree_string, bind. rewrite Hdict.
  pose proof (tree_dict_of_dir_node _ _ Hbuild) as Hd. inversion Hd; subst.
  simpl. unfold lift. by rewrite tree_string_of_spec.
Qed.

End public_functions.

Section examples.
#[local] Existing Instance lenient_checks.
#[local] Existing Instance example_str.
#[local] Existing Instance example_world.

(** C1 as stated fails: the listing of the example is not rendered with
    [a.py] before [b/]. *)
Lemma example_not_rendered_files_first :
  rbind (tree_dict_of (VList (item_of <$> example_entries))) tree_string_of
  ≠ Ok "Root
└── src/
    ├── a.py
    └── b/
        └── c.py
".
Proof. vm_compute. discriminate. Qed.

(** C1 (amended): for the listing of the example, building and then
    rendering gives the tree with the directory [b/] (and its content)
    before the file [a.py]; the public function returns this string when
    the remote answers with this listing. *)
Theorem example_rendered_directories_first :
  rbind (tree_dict_of (VList (item_of <$> example_entries))) tree_string_of
  = Ok "Root
└── src/
    ├── b/
    │   └── c.py
    └── a.py
"
  ∧ (url_tree_string "https://github.com/acme/widgets" []).1
    = Ok (VStr "Root
└── src/
    ├── b/
    │   └── c.py
    └── a.py
").
Proof. split; vm_compute; reflexivity. Qed.

Lemma branch_resolution_main_then_master_witness :
  (url_tree_list "https://github.com/acme/legacy" []).2
  = [ sent (branch_endpoint (Some "acme") (Some "legacy") "main") None;
      sent (branch_endpoint (Some "acme") (Some "legacy") "master") None;
      sent (tree_endpoint (Some "acme") (Some "legacy") "def")
        recursive_params ].
Proof.
  destruct (branch_resolution_main_then_master
              "https://github.com/acme/legacy" "acme" "legacy" [] eq_refl)
    as (_ & Hmaster & _).
  apply (Hmaster "def").
  - vm_compute; reflexivity.
  - exists {| status_code := 200; json := Ok (branch_body "def") |},
      (branch_body "def"), (VDict {[ "sha" := VStr "def" ]}), (VStr "def").
    repeat split; vm_compute; reflexivity.
  - discriminate.
Defined.

Lemma missing_tree_field_gives_empty_list_witness :
  url_tree_list "https://github.com/acme/legacy" []
  = (Ok (VList []),
     [ sent (branch_endpoint (Some "acme") (Some "legacy") "main") None;
       sent (branch_endpoint (Some "acme") (Some "legacy") "master") None ]
     ++ [ sent (tree_endpoint (Some "acme") (Some "legacy") "def")
            recursive_params ])
  ∧ url_tree_dict "https://github.com/acme/legacy" []
    = (Ok (VDict ∅),
       [ sent (branch_endpoint (Some "acme") (Some "legacy") "main") None;
         sent (branch_endpoint (Some "acme") (Some "legacy") "master") None ]
       ++ [ sent (tree_endpoint (Some "acme") (Some "legacy") "def")
              recursive_params ]).
Proof.
  apply (missing_tree_field_gives_empty_list
           "https://github.com/acme/legacy" "acme" "legacy" "def" []
           [ sent (branch_endpoint (Some "acme") (Some "legacy") "main") None;
             sent (branch_endpoint (Some "acme") (Some "legacy") "master") None ]
           {| status_code := 200; json := Ok (VDict {[ "sha" := VStr "def" ]}) |}
           {[ "sha" := VStr "def" ]});
    try (vm_compute; reflexivity).
  discriminate.
Defined.

End examples.

(** * Further properties of the validator *)

Section validator_more.
Import PyStr UrlLib PyIn.
Context {checks : UrlChecks}.

Lemma contains_take c n : ∀ s,
  contains c s = false → contains c (take n s) = false.
Proof.
  induction n as [|n IH]; intros [|x s]; simpl; try done.
  intros [Hx Hs]%orb_false_iff. by rewrite Hx, IH.
Qed.

Lemma contains_drop c n : ∀ s,
  contains c s = false → contains c (drop n s) = false.
Proof.
  induction n as [|n IH]; intros [|x s]; simpl; try done.
  intros [Hx Hs]%orb_false_iff. by apply IH.
Qed.

Lemma contains_lstrip c p s :
  contains c s = false → contains c (lstrip p s) = false.
Proof.
  induction s as [|x s IH]; simpl; [done|].
  intros H. pose proof H as [Hx Hs]%orb_false_iff.
  destruct (p x); [by apply IH|done].
Qed.

Lemma contains_rstrip c p s :
  contains c s = false → contains c (rstrip p s) = false.
Proof.
  induction s as [|x s IH]; simpl; [done|].
  intros [Hx Hs]%orb_false_iff. specialize (IH Hs).
  destruct (rstrip p s) as [|y r].
  - destruct (p x); simpl; [done|]. by rewrite Hx.
  - simpl in *. by rewrite Hx, IH.
Qed.

Lemma contains_remove_same c s : contains c (remove c s) = false.
Proof.
  induction s as [|x s IH]; simpl; [done|].
  destruct (eqc x c) eqn:Hx; simpl; [done|]. by rewrite Hx.
Qed.

Lemma contains_remove c c' s :
  contains c s = false → contains c (remove c' s) = false.
Proof.
  induction s as [|x s IH]; simpl; [done|].
  intros [Hx Hs]%orb_false_iff.
  destruct (eqc x c'); simpl; [by apply IH|]. by rewrite Hx, IH.
Qed.

Lemma find_None_contains c s : find c s = None → contains c s = false.
Proof.
  induction s as [|x s IH]; simpl; [done|].
  destruct (eqc x c); [done|]. destruct (find c s); [done|]. auto.
Qed.

Lemma find_Some_take c : ∀ s i,
  find c s = Some i → contains c (take i s) = false.
Proof.
  induction s as [|x s IH]; intros i; simpl; [done|].
  destruct (eqc x c) eqn:Hx; [by intros [= <-]|].
  destruct (find c s) as [j|]; [|done]. intros [= <-]. simpl.
  by rewrite Hx, IH.
Qed.

Lemma split_once_fst_same c s : contains c (split_once c s).1 = false.
Proof.
  unfold split_once. destruct (find c s) as [i|] eqn:Hf; simpl.
  - by apply find_Some_take.
  - by apply find_None_contains.
Qed.

Lemma split_once_fst c c' s :
  contains c s = false → contains c (split_once c' s).1 = false.
Proof.
  intros Hs. unfold split_once. destruct (find c' s); simpl; [|done].
  by apply contains_take.
Qed.

Lemma splitparams_fst c s :
  contains c s = false → contains c (splitparams s).1 = false.
Proof.
  intros Hs. unfold splitparams.
  destruct (rfind "/" s); [destruct (find_from ";" _ s)|destruct (find ";" s)];
    simpl; auto using contains_take.
Qed.

Lemma split_scheme_snd c s :
  contains c s = false → contains c (split_scheme s).2 = false.
Proof.
  intros Hs. unfold split_scheme.
  destruct (find ":" s) as [[|i]|]; try done.
  destruct s as [|c0 s']; [done|].
  destruct (_ && _); [|done]. by apply contains_drop.
Qed.

Lemma splitnetloc_snd c s start :
  contains c s = false → contains c (splitnetloc s start).2 = false.
Proof. intros Hs. unfold splitnetloc. simpl. by apply contains_drop. Qed.

(** The segments of a split hold no separator and no character the
    split string does not hold. *)
Lemma split_segments sep s x :
  x ∈ split sep s →
  contains sep x = false ∧ ∀ c, contains c s = false → contains c x = false.
Proof.
  revert x. induction s as [|y s IH]; intros x; simpl.
  - intros ->%list_elem_of_singleton. done.
  - destruct (eqc y sep) eqn:Hy.
    + intros [->|Hx]%elem_of_cons; [split; [done|]; done|].
      destruct (IH x Hx) as [H1 H2]. split; [done|].
      intros c [_ Hc]%orb_false_iff. auto.
    + destruct (split sep s) as [|h t] eqn:Hsplit.
      * intros ->%list_elem_of_singleton. simpl. rewrite Hy. split; [done|].
        intros c [Hc _]%orb_false_iff. by rewrite Hc.
      * intros [->|Hx]%elem_of_cons.
        -- destruct (IH h) as [H1 H2]; [left|]. simpl. rewrite Hy, H1.
           split; [done|]. intros c [Hc Hs]%orb_false_iff. by rewrite Hc, H2.
        -- destruct (IH x) as [H1 H2]; [by right|]. split; [done|].
           intros c [_ Hc]%orb_false_iff. auto.
Qed.

(** What [urlparse] leaves in the path component. *)
Lemma urlparse_path_free (_url : string) (parsed : ParseResult) :
  urlparse _url = Ok parsed →
  ∀ c, c ∈ ["?"; "#"; tab; cr; lf]%char → contains c (path parsed) = false.
Proof.
  unfold urlparse, urlsplit.
  set (u0 := lstrip c0_control_or_space _url).
  set (u1 := foldl (λ u b, remove b u) u0 unsafe_url_bytes).
  assert (H1 : ∀ c, c ∈ [tab; cr; lf] → contains c u1 = false).
  { intros c Hc. unfold u1, unsafe_url_bytes. cbn [foldl]. fold tab cr lf.
    apply elem_of_cons in Hc as [->|Hc].
    { do 2 apply contains_remove. apply contains_remove_same. }
    apply elem_of_cons in Hc as [->|Hc].
    { apply contains_remove. apply contains_remove_same. }
    apply list_elem_of_singleton in Hc as ->. apply contains_remove_same. }
  clearbody u1. clear u0.
  pose proof (split_scheme_snd) as Hscheme.
  destruct (split_scheme u1) as [sch u2] eqn:Hu2.
  assert (H2 : ∀ c, contains c u1 = false → contains c u2 = false).
  { intros c Hc. specialize (Hscheme c u1 Hc). by rewrite Hu2 in Hscheme. }
  assert (Hnet : ∀ nl u3,
    (if startswith "//" u2 then
       let '(netloc, url) := splitnetloc u2 2 in
       if (contains "[" netloc && negb (contains "]" netloc))
          || (contains "]" netloc && negb (contains "[" netloc))
       then Raise ValueError
       else if contains "[" netloc && contains "]" netloc
               && negb (bracketed_netloc_ok netloc)
       then Raise ValueError
       else Ok (netloc, url)
     else Ok (EmptyString, u2)) = Ok (nl, u3) →
    ∀ c, contains c u2 = false → contains c u3 = false).
  { intros nl u3. destruct (startswith "//" u2).
    - pose proof (splitnetloc_snd) as Hsn.
      destruct (splitnetloc u2 2) as [n' u'] eqn:Hsplit.
      destruct (_ || _); [done|]. destruct (_ && _); [done|].
      intros [= <- <-] c Hc. specialize (Hsn c u2 2 Hc). by rewrite Hsplit in Hsn.
    - by intros [= <- <-]. }
  destruct (if startswith "//" u2 then _ else _) as [[nl u3]| |] eqn:Hstage;
    [|done..].
  specialize (Hnet nl u3 eq_refl). cbn [rbind].
  pose proof (split_once_fst_same "#" u3) as Hhash.
  pose proof (λ c, split_once_fst c "#" u3) as Hhash'.
  destruct (split_once "#" u3) as [u4 frag]. simpl in Hhash, Hhash'.
  pose proof (split_once_fst_same "?" u4) as Hq.
  pose proof (λ c, split_once_fst c "?" u4) as Hq'.
  destruct (split_once "?" u4) as [u5 query]. simpl in Hq, Hq'.
  destruct (checknetloc nl); [|done..]. cbn [rbind].
  assert (H5 : ∀ c, c ∈ ["?"; "#"; tab; cr; lf]%char → contains c u5 = false).
  { intros c Hc.
    apply elem_of_cons in Hc as [->|Hc]; [done|].
    apply elem_of_cons in Hc as [->|Hc]; [by apply Hq'|].
    apply Hq', Hhash', Hnet, H2, H1, Hc. }
  pose proof (λ c, splitparams_fst c u5) as Hpar.
  destruct (bool_decide _ && contains ";" u5).
  - destruct (splitparams u5) as [u6 par]. simpl in Hpar.
    intros [= <-] c Hc. simpl. by apply Hpar, H5.
  - intros [= <-] c Hc. simpl. by apply H5.
Qed.

Lemma endpoint_delimiters_inv (c : ascii) :
  c ∈ endpoint_delimiters →
  c = "/"%char ∨ c ∈ ["?"; "#"; tab; cr; lf]%char.
Proof. intros [->|Hc]%elem_of_cons; [by left|by right]. Qed.

(** X2: an owner and a repository name returned by the validator hold
    no slash, no query or fragment mark and no tab or line break. *)
Theorem parse_result_free_of_delimiters
    (_url owner repo : string) (c : ascii) :
  parse_github_repo_url _url = Ok (Some owner, Some repo) →
  c ∈ endpoint_delimiters →
  contains c owner = false ∧ contains c repo = false.
Proof.
  unfold parse_github_repo_url.
  destruct (urlparse _url) as [parsed| |] eqn:Hparse; simpl; [|done..].
  pose proof (urlparse_path_free _ _ Hparse) as Hpath.
  destruct (negb (String.eqb (scheme parsed) "https")); [done|].
  destruct (negb (String.eqb (netloc parsed) "github.com")); [done|].
  destruct (split "/" (strip (eqc "/") (path parsed))) as [|o [|r l]] eqn:Hs;
    simpl; [done..|].
  destruct (negb (truthy o) || negb (truthy r)); [done|].
  intros [= <- <-] Hc.
  destruct (split_segments "/" (strip (eqc "/") (path parsed)) o) as [Ho1 Ho2].
  { rewrite Hs. left. }
  destruct (split_segments "/" (strip (eqc "/") (path parsed)) r) as [Hr1 Hr2].
  { rewrite Hs. right. left. }
  apply endpoint_delimiters_inv in Hc as [->|Hc]; [done|].
  assert (contains c (strip (eqc "/") (path parsed)) = false).
  { unfold strip. by apply contains_rstrip, contains_lstrip, Hpath. }
  auto.
Qed.

(** X1: [url_check] answers [True] exactly for the URLs that [urlparse]
    splits into scheme [https], network location [github.com] and a path
    whose slash-trimmed split starts with two non-empty segments. *)
Theorem url_check_true_iff (_url : string) :
  url_check _url = Ok true
  ↔ ∃ parsed owner repo rest,
      urlparse _url = Ok parsed
      ∧ scheme parsed = "https"
      ∧ netloc parsed = "github.com"
      ∧ split "/" (strip (eqc "/") (path parsed)) = owner :: repo :: rest
      ∧ owner ≠ EmptyString ∧ repo ≠ EmptyString.
Proof.
  split.
  - unfold url_check, parse_github_repo_url.
    destruct (urlparse _url) as [parsed| |]; simpl; [|done..].
    destruct (String.eqb (scheme parsed) "https") eqn:Hsch; simpl; [|done].
    destruct (String.eqb (netloc parsed) "github.com") eqn:Hnet; simpl; [|done].
    destruct (split "/" (strip (eqc "/") (path parsed))) as [|o [|r l]] eqn:Hs;
      simpl; [done..|].
    destruct (truthy o) eqn:Ho, (truthy r) eqn:Hr; simpl; try done.
    { intros _. exists parsed, o, r, l.
      apply String.eqb_eq in Hsch, Hnet. apply truthy_nonempty in Ho, Hr.
      done. }
  - intros (parsed & owner & repo & rest & H1 & H2 & H3 & H4 & H5 & H6).
    eapply url_check_of_parse.
    unfold parse_github_repo_url. rewrite H1. simpl.
    rewrite H2, H3, H4. simpl.
    apply truthy_nonempty in H5, H6. by rewrite H5, H6.
Qed.

End validator_more.

(** * Further properties of the fetcher *)

Section fetch_more.
Import PyStr UrlLib PyIn.
Context {checks : UrlChecks} {builtin : StrBuiltin} {world : World}
        {base64 : Base64}.

(** X5: on a URL the validator rejects, no public function sends a
    request: the branch list is empty and the README, the tree list,
    the tree dict and the tree string are [None]. *)
Theorem invalid_url_sends_nothing (_url : string) (log : list request) :
  url_check _url = Ok false →
  url_branch_list _url log = (Ok (VList []), log)
  ∧ url_readme_string _url log = (Ok VNone, log)
  ∧ url_tree_list _url log = (Ok VNone, log)
  ∧ url_tree_dict _url log = (Ok VNone, log)
  ∧ url_tree_string _url log = (Ok VNone, log).
Proof.
  intros Hcheck.
  assert (Hlist : url_tree_list _url log = (Ok VNone, log)).
  { unfold url_tree_list, bind, lift. by rewrite Hcheck. }
  assert (Hdict : url_tree_dict _url log = (Ok VNone, log)).
  { unfold url_tree_dict, bind. by rewrite Hlist. }
  repeat split; try done.
  - unfold url_branch_list, bind, lift. by rewrite Hcheck.
  - unfold url_readme_string, bind, lift. by rewrite Hcheck.
  - unfold url_tree_string, bind. by rewrite Hdict.
Qed.


Lemma url_branch_list_unfold (_url owner repo : string) (log : list request) :
  parse_github_repo_url _url = Ok (Some owner, Some repo) →
  url_branch_list _url log
  = (match (github_api_get (branches_endpoint (Some owner) (Some repo))
              None log).1 with
     | Ok (Some r) =>
         rbind (json r) (λ branches,
         rbind (iter branches) (λ items,
         rbind (comprehension (λ branch, getitem branch "name") items)
           (λ names, Ok (VList names))))
     | Ok None => Ok (VList [])
     | Raise e => Raise e
     | OutOfFuel => OutOfFuel
     end,
     log ++ [sent (branches_endpoint (Some owner) (Some repo)) None]).
Proof.
  intros Hp. unfold url_branch_list, bind, lift, ret.
  rewrite (url_check_of_parse _ _ _ Hp), Hp.
  change (negb true) with false. cbv iota beta.
  rewrite github_api_get_eq. cbn [fst].
  destruct (github_api_get _ _ _).1 as [[r|]| |]; try done.
  destruct (json r) as [branches| |]; try done. cbn [rbind].
  destruct (iter branches) as [items| |]; try done. cbn [rbind].
  by destruct (comprehension _ items).
Qed.

Lemma comprehension_ok f items names :
  Forall2 (λ item name, f item = Ok name) items names →
  comprehension f items = Ok names.
Proof.
  induction 1 as [|item name items names Hf _ IH]; simpl; [done|].
  by rewrite Hf, IH.
Qed.

Lemma comprehension_raise f pre bad post e :
  Forall (λ item, ∃ name, f item = Ok name) pre →
  f bad = Raise e →
  comprehension f (pre ++ bad :: post) = Raise e.
Proof.
  intros Hpre Hbad. induction Hpre as [|item pre [name Hf] _ IH]; simpl.
  - by rewrite Hbad.
  - by rewrite Hf, IH.
Qed.

(** X7: for a valid URL whose branches request is answered with a JSON
    list of objects that all have a [name], [url_branch_list] returns
    these names in the order of the list, after exactly one request. *)
Theorem url_branch_list_names
    (_url owner repo : string) (log : list request) (r : response)
    (items names : list pyval) :
  parse_github_repo_url _url = Ok (Some owner, Some repo) →
  (github_api_get (branches_endpoint (Some owner) (Some repo)) None log).1
    = Ok (Some r) →
  json r = Ok (VList items) →
  Forall2 (λ item name, getitem item "name" = Ok name) items names →
  url_branch_list _url log
  = (Ok (VList names),
     log ++ [sent (branches_endpoint (Some owner) (Some repo)) None]).
Proof.
  intros Hp Hget Hjson Hnames.
  rewrite (url_branch_list_unfold _ _ _ _ Hp), Hget, Hjson. simpl.
  by rewrite (comprehension_ok _ _ _ Hnames).
Qed.

(** X8: if an element of the answered list is an object without a
    [name] (and the elements before it have one), [url_branch_list]
    raises [KeyError], after the one request. *)
Theorem url_branch_list_missing_name
    (_url owner repo : string) (log : list request) (r : response)
    (pre post : list pyval) (d : gmap string pyval) :
  parse_github_repo_url _url = Ok (Some owner, Some repo) →
  (github_api_get (branches_endpoint (Some owner) (Some repo)) None log).1
    = Ok (Some r) →
  json r = Ok (VList (pre ++ VDict d :: post)) →
  Forall (λ item, ∃ name, getitem item "name" = Ok name) pre →
  d !! "name" = None →
  url_branch_list _url log
  = (Raise KeyError,
     log ++ [sent (branches_endpoint (Some owner) (Some repo)) None]).
Proof.
  intros Hp Hget Hjson Hpre Hd.
  rewrite (url_branch_list_unfold _ _ _ _ Hp), Hget, Hjson. simpl.
  rewrite (comprehension_raise _ pre (VDict d) post KeyError); [done..|].
  simpl. by rewrite Hd.
Qed.

Lemma url_readme_string_unfold (_url owner repo : string) (log : list request) :
  parse_github_repo_url _url = Ok (Some owner, Some repo) →
  url_readme_string _url log
  = (match (github_api_get (readme_endpoint (Some owner) (Some repo))
              None log).1 with
     | Ok (Some r) =>
         rbind (json r) (λ data,
         rbind (contains_str "content" data) (λ present,
           if negb present then Ok VNone else
           rbind (getitem data "content") (λ content,
           rbind (b64decode_utf8 content) (λ readme, Ok (VStr readme)))))
     | Ok None => Ok VNone
     | Raise e => Raise e
     | OutOfFuel => OutOfFuel
     end,
     log ++ [sent (readme_endpoint (Some owner) (Some repo)) None]).
Proof.
  intros Hp. unfold url_readme_string, bind, lift, ret.
  rewrite (url_check_of_parse _ _ _ Hp), Hp.
  change (negb true) with false. cbv iota beta.
  rewrite github_api_get_eq. cbn [fst].
  destruct (github_api_get _ _ _).1 as [[r|]| |]; try done.
  destruct (json r) as [data| |]; try done. cbn [rbind].
  destruct (contains_str "content" data) as [present| |]; try done.
  cbn [rbind]. destruct (negb present); [done|].
  destruct (getitem data "content") as [content| |]; try done. cbn [rbind].
  by destruct (b64decode_utf8 content).
Qed.

(** X9: for a valid URL whose README request is answered with a JSON
    object, [url_readme_string] returns [None] when the object has no
    [content] and otherwise the decoded [content] (or the decoder's
    exception), after exactly one request; a failed request gives
    [None]. *)
Theorem url_readme_string_content
    (_url owner repo : string) (log : list request) :
  parse_github_repo_url _url = Ok (Some owner, Some repo) →
  let log' := log ++ [sent (readme_endpoint (Some owner) (Some repo)) None] in
  (∀ r d,
     (github_api_get (readme_endpoint (Some owner) (Some repo)) None log).1
       = Ok (Some r) →
     json r = Ok (VDict d) →
     url_readme_string _url log
     = (match d !! "content" with
        | None => Ok VNone
        | Some content =>
            rbind (b64decode_utf8 content) (λ readme, Ok (VStr readme))
        end, log'))
  ∧ ((github_api_get (readme_endpoint (Some owner) (Some repo)) None log).1
       = Ok None →
     url_readme_string _url log = (Ok VNone, log')).
Proof.
  intros Hp log'. split.
  - intros r d Hget Hjson.
    rewrite (url_readme_string_unfold _ _ _ _ Hp), Hget, Hjson.
    unfold contains_str, getitem. cbn [rbind].
    destruct (d !! "content") as [content|] eqn:Hc.
    + rewrite bool_decide_eq_true_2 by eauto. done.
    + rewrite bool_decide_eq_false_2 by (intros [? ?]; done). done.
  - intros Hget. by rewrite (url_readme_string_unfold _ _ _ _ Hp), Hget.
Qed.


Lemma url_check_true_parse (_url : string) :
  url_check _url = Ok true →
  ∃ owner repo, parse_github_repo_url _url = Ok (Some owner, Some repo).
Proof.
  unfold url_check.
  destruct (parse_github_repo_url _url) as [[[o|] [r|]]| |]; simpl; try done.
  - eauto.
  - by destruct (truthy o).
Qed.

Lemma resolve_commit_requests owner repo branches : ∀ log,
  ∃ l, (resolve_commit owner repo branches log).2 = log ++ l
       ∧ (List.length l ≤ List.length branches)%nat
       ∧ ∀ req, req ∈ l →
           ∃ branch, req = sent (branch_endpoint owner repo branch) None.
Proof.
  induction branches as [|branch rest IH]; intros log.
  - exists []. simpl. rewrite app_nil_r. split; [done|]. split; [done|].
    intros req Hreq. by apply elem_of_nil in Hreq.
  - simpl. unfold bind at 1. rewrite github_api_get_eq.
    destruct (github_api_get _ _ _).1 as [[r|]| |].
    + exists [sent (branch_endpoint owner repo branch) None].
      split.
      { unfold bind, lift, ret. destruct (json r) as [body| |]; try done.
        destruct (getitem body "commit") as [commit| |]; try done.
        by destruct (getitem commit "sha"). }
      split; [simpl; lia|].
      intros req ->%list_elem_of_singleton. eauto.
    + destruct (IH (log ++ [sent (branch_endpoint owner repo branch) None]))
        as (l & Hl & Hlen & Hreqs).
      exists (sent (branch_endpoint owner repo branch) None :: l).
      split; [by rewrite Hl, <-app_assoc|]. split; [simpl; lia|].
      intros req [->|Hreq]%elem_of_cons; eauto.
    + exists [sent (branch_endpoint owner repo branch) None].
      split; [done|]. split; [simpl; lia|].
      intros req ->%list_elem_of_singleton. eauto.
    + exists [sent (branch_endpoint owner repo branch) None].
      split; [done|]. split; [simpl; lia|].
      intros req ->%list_elem_of_singleton. eauto.
Qed.

Lemma url_tree_string_log (_url : string) (log : list request) :
  (url_tree_string _url log).2 = (url_tree_list _url log).2
  ∧ (url_tree_dict _url log).2 = (url_tree_list _url log).2.
Proof.
  assert (Hdict : (url_tree_dict _url log).2 = (url_tree_list _url log).2).
  { unfold url_tree_dict, bind.
    destruct (url_tree_list _url log) as [[file_list| |] log']; try done.
    by destruct (is_none file_list). }
  split; [|done]. rewrite <-Hdict. unfold url_tree_string, bind.
  destruct (url_tree_dict _url log) as [[tree_dict| |] log']; try done.
  destruct (is_none tree_dict); [done|]. unfold lift.
  by destruct (tree_string_of tree_dict).
Qed.

(** X6: whatever the network answers, one call of [url_tree_string]
    (and so of [url_tree_dict] and [url_tree_list]) sends at most three
    requests; each of them goes to a URL below
    [https://api.github.com/repos/<owner>/<repo>/] for the owner and
    repository of the validated URL, with a timeout of 10. *)
Theorem url_tree_string_at_most_three_requests
    (_url : string) (log : list request) :
  ∃ l,
    (url_tree_string _url log).2 = log ++ l
    ∧ (url_tree_dict _url log).2 = log ++ l
    ∧ (url_tree_list _url log).2 = log ++ l
    ∧ (List.length l ≤ 3)%nat
    ∧ ∀ req, req ∈ l →
        ∃ owner repo rest,
          parse_github_repo_url _url = Ok (Some owner, Some repo)
          ∧ req_url req
            = "https://api.github.com/repos/" +:+ owner +:+ "/" +:+ repo
              +:+ "/" +:+ rest
          ∧ req_timeout req = 10%Z.
Proof.
  destruct (url_tree_string_log _url log) as [-> ->].
  assert (Hnone : ∀ v : result pyval,
    (∃ owner repo, parse_github_repo_url _url = Ok (Some owner, Some repo))
    ∨ url_tree_list _url log = (v, log) →
    url_tree_list _url log = (v, log) →
    ∃ l, (v, log).2 = log ++ l ∧ (v, log).2 = log ++ l ∧ (v, log).2 = log ++ l
         ∧ (List.length l ≤ 3)%nat
         ∧ ∀ req, req ∈ l →
             ∃ owner repo rest,
               parse_github_repo_url _url = Ok (Some owner, Some repo)
               ∧ req_url req
                 = "https://api.github.com/repos/" +:+ owner +:+ "/" +:+ repo
                   +:+ "/" +:+ rest
               ∧ req_timeout req = 10%Z).
  { intros v _ _. exists []. simpl. rewrite app_nil_r.
    repeat split; try done; [lia|]. intros req Hreq. by apply elem_of_nil in Hreq. }
  destruct (url_check _url) as [[|]| |] eqn:Hcheck.
  2:{ assert (H : url_tree_list _url log = (Ok VNone, log)).
      { unfold url_tree_list, bind, lift. by rewrite Hcheck. }
      rewrite H. by apply Hnone; [right|]. }
  2:{ assert (H : url_tree_list _url log = (Raise e, log)).
      { unfold url_tree_list, bind, lift. by rewrite Hcheck. }
      rewrite H. by apply Hnone; [right|]. }
  2:{ assert (H : url_tree_list _url log = (OutOfFuel, log)).
      { unfold url_tree_list, bind, lift. by rewrite Hcheck. }
      rewrite H. by apply Hnone; [right|]. }
  clear Hnone.
  destruct (url_check_true_parse _ Hcheck) as (owner & repo & Hp).
  rewrite (url_tree_list_unfold _ _ _ _ Hp).
  destruct (resolve_commit_requests (Some owner) (Some repo)
              ["main"; "master"] log) as (l & Hl & Hlen & Hreqs).
  assert (Hbranch : ∀ req, req ∈ l →
    ∃ owner0 repo0 rest,
      parse_github_repo_url _url = Ok (Some owner0, Some repo0)
      ∧ req_url req
        = "https://api.github.com/repos/" +:+ owner0 +:+ "/" +:+ repo0
          +:+ "/" +:+ rest
      ∧ req_timeout req = 10%Z).
  { intros req [branch ->]%Hreqs. exists owner, repo, ("branches/" +:+ branch).
    split; [done|]. split; [|done]. reflexivity. }
  destruct (resolve_commit _ _ _ log) as [[[sha|]| |] log'] eqn:Hres;
    simpl in Hl; subst log';
    try (exists l; cbn [snd]; repeat split; try done; simpl in Hlen; lia).
  destruct (truthy sha);
    [|exists l; cbn [snd]; repeat split; try done; simpl in Hlen; lia].
  rewrite github_api_get_eq.
  exists (l ++ [sent (tree_endpoint (Some owner) (Some repo) sha)
                  recursive_params]).
  assert (Hlog : ∀ (v : result pyval) l',
    (v, (log ++ l) ++ l').2 = log ++ l ++ l').
  { intros. simpl. by rewrite app_assoc. }
  assert (Hsnd : ∀ v : result pyval,
    (match (github_api_get (tree_endpoint (Some owner) (Some repo) sha)
              recursive_params (log ++ l)).1 with
     | Ok (Some r) =>
         (rbind (json r) (λ body, get body "tree" (VList [])),
          (log ++ l) ++ [sent (tree_endpoint (Some owner) (Some repo) sha)
                           recursive_params])
     | Ok None => (Ok VNone, (log ++ l) ++ [sent (tree_endpoint (Some owner)
                     (Some repo) sha) recursive_params])
     | Raise e => (Raise e, (log ++ l) ++ [sent (tree_endpoint (Some owner)
                     (Some repo) sha) recursive_params])
     | OutOfFuel => (OutOfFuel, (log ++ l) ++ [sent (tree_endpoint (Some owner)
                     (Some repo) sha) recursive_params])
     end).2
    = log ++ l ++ [sent (tree_endpoint (Some owner) (Some repo) sha)
                     recursive_params]).
  { intros _. destruct (github_api_get _ _ _).1 as [[r|]| |]; apply Hlog. }
  cbn [fst snd]. rewrite (Hsnd (Ok VNone)).
  repeat split; try done.
  - rewrite length_app. simpl in *. lia.
  - intros req [Hreq|Hreq]%elem_of_app; [by apply Hbranch|].
    apply list_elem_of_singleton in Hreq as ->.
    exists owner, repo, ("git/trees/" +:+ sha).
    split; [done|]. split; [|done]. reflexivity.
Qed.

End fetch_more.

(** * Further properties of the builder *)

Section builder_more.
Import PyStr UrlLib PyIn.

Lemma ins_not_dict dirs name tree t :
  is_dict t = false → ∃ e, ins dirs name tree t = Raise e
                           ∧ (e = AttributeError ∨ e = TypeError).
Proof.
  intros Ht. unfold ins. destruct dirs as [|p ps]; simpl.
  - unfold place_entry. destruct tree, t; try done; eauto.
  - destruct t; try done; eauto.
Qed.

(** When the walk of a record succeeds. *)
Lemma ins_ok_iff dirs name tree : ∀ t,
  dir_node t →
  (∃ t', ins dirs name tree t = Ok t')
  ↔ (∀ P, P ≠ [] → P `prefix_of` dirs → lookup_path t P ≠ Some VNone).
Proof.
  induction dirs as [|p ps IH]; intros t Ht.
  - inversion Ht as [d Hd]; subst. split.
    + intros _ P HP ->%prefix_nil_inv. done.
    + intros _. unfold ins. simpl. destruct tree; simpl; eauto.
  - inversion Ht as [d Hd]; subst. rewrite ins_cons.
    destruct (d !! p) as [child|] eqn:Hp; simpl.
    + destruct (Hd _ _ Hp) as [->|Hchild].
      * destruct (ins_not_dict ps name tree VNone eq_refl) as (e & -> & _).
        simpl. split; [by intros [? ?]|].
        intros Hall. exfalso. apply (Hall [p]); [done| |].
        -- by apply prefix_cons, prefix_nil.
        -- simpl. by rewrite Hp.
      * specialize (IH child Hchild). split.
        -- intros [t' Hins].
           destruct (ins ps name tree child) as [c'| |] eqn:Hc; [|done..].
           destruct IH as [IH _]. specialize (IH (ex_intro _ c' eq_refl)).
           intros [|k P] HP Hpre; [done|].
           apply prefix_cons_inv_1 in Hpre as Hk. subst k.
           apply prefix_cons_inv_2 in Hpre. simpl. rewrite Hp.
           destruct P as [|k P]; [by inversion Hchild|]. by apply IH.
        -- intros Hall. destruct IH as [_ IH].
           destruct IH as [c' ->]; [|simpl; eauto].
           intros P HP Hpre. specialize (Hall (p :: P)). simpl in Hall.
           rewrite Hp in Hall. apply Hall; [done|]. by apply prefix_cons.
    + specialize (IH (VDict ∅) dir_node_empty). split.
      * intros _ [|k P] HP Hpre; [done|].
        apply prefix_cons_inv_1 in Hpre as Hk. subst k. simpl. by rewrite Hp.
      * intros _. destruct IH as [_ IH]. destruct IH as [c' ->]; [|simpl; eauto].
        intros [|k P] HP _; [done|]. simpl. by rewrite lookup_empty.
Qed.

Lemma ins_raise_kind dirs name tree : ∀ t,
  (∃ t', ins dirs name tree t = Ok t')
  ∨ ins dirs name tree t = Raise AttributeError
  ∨ ins dirs name tree t = Raise TypeError.
Proof.
  induction dirs as [|p ps IH]; intros t.
  - unfold ins. simpl. unfold place_entry. destruct tree, t; eauto.
  - destruct t as [| | | | |d]; try (right; left; reflexivity).
    rewrite ins_cons.
    destruct (IH (default (VDict ∅) (d !! p))) as [[c' ->]|[-> | ->]];
      simpl; eauto.
Qed.

Lemma proper_prefix_snoc (P dirs : list string) (name : string) :
  proper_prefix P (dirs ++ [name]) ↔ P `prefix_of` dirs.
Proof.
  split.
  - intros [[k Hk] Hne]. destruct k as [|x k _] using rev_ind.
    { by rewrite app_nil_r in Hk. }
    rewrite app_assoc in Hk. apply app_inj_tail in Hk as [-> _].
    by apply prefix_app_r.
  - intros [k ->]. split.
    + exists (k ++ [name]). by rewrite app_assoc.
    + intros Heq. rewrite <-app_assoc in Heq.
      apply (f_equal List.length) in Heq. rewrite !length_app in Heq.
      simpl in Heq. lia.
Qed.

Lemma prefix_of_parts (e : TreeEntry) (P : list string) :
  proper_prefix P (parts e) ↔ P `prefix_of` removelast (parts e).
Proof.
  pose proof (parts_snoc e) as H. revert H.
  generalize (removelast (parts e)) as dirs.
  generalize (List.last (parts e) EmptyString) as name.
  generalize (parts e) as ps.
  intros ps name dirs <-. apply proper_prefix_snoc.
Qed.

Lemma add_entry_ok_iff (e : TreeEntry) (t : pyval) :
  dir_node t →
  (∃ t', add_entry e t = Ok t')
  ↔ (∀ P, P ≠ [] → proper_prefix P (parts e) →
          lookup_path t P ≠ Some VNone).
Proof.
  intros Ht. rewrite add_entry_ins, (ins_ok_iff _ _ _ t Ht). split.
  - intros Hall P HP Hpre. apply Hall; [done|]. by apply prefix_of_parts.
  - intros Hall P HP Hpre. apply Hall; [done|]. by apply prefix_of_parts.
Qed.

(** X11: on a well-formed tree the loop body of [url_tree_dict] completes
    for a record exactly if no non-empty proper prefix of the record's
    path is a file leaf of the tree; otherwise it raises
    [AttributeError] or [TypeError]. *)
Theorem add_item_completes_iff (e : TreeEntry) (t : pyval) :
  dir_node t →
  ((∃ t', add_item t (item_of e) = Ok t')
   ↔ (∀ P, P ≠ [] → proper_prefix P (parts e) →
           lookup_path t P ≠ Some VNone))
  ∧ ((∃ t', add_item t (item_of e) = Ok t')
     ∨ add_item t (item_of e) = Raise AttributeError
     ∨ add_item t (item_of e) = Raise TypeError).
Proof.
  intros Ht. rewrite add_item_item_of. split; [by apply add_entry_ok_iff|].
  rewrite add_entry_ins. apply ins_raise_kind.
Qed.


(** A file record leaves a leaf at its own path. *)
Lemma ins_file_leaf dirs name : ∀ t t',
  ins dirs name false t = Ok t' →
  lookup_path t' (dirs ++ [name]) = Some VNone.
Proof.
  induction dirs as [|p ps IH]; intros t t' Hins.
  - destruct (ins_ok_dict _ _ _ _ _ Hins) as (d & d' & -> & ->).
    unfold ins in Hins. simplify_eq/=. by rewrite lookup_insert_eq.
  - destruct (ins_ok_dict _ _ _ _ _ Hins) as (d & d' & -> & ->).
    rewrite ins_cons in Hins.
    destruct (ins ps name false _) as [child'| |] eqn:Hchild; simplify_eq/=.
    rewrite lookup_insert_eq. by eapply IH.
Qed.

(** A record leaves the value at its own path present. *)
Lemma ins_own_path dirs name tree : ∀ t t',
  ins dirs name tree t = Ok t' →
  is_Some (lookup_path t' (dirs ++ [name])).
Proof.
  induction dirs as [|p ps IH]; intros t t' Hins.
  - destruct (ins_ok_dict _ _ _ _ _ Hins) as (d & d' & -> & ->).
    unfold ins in Hins. simpl in *. destruct tree; simplify_eq/=.
    + rewrite setdefault_lookup. eauto.
    + rewrite lookup_insert_eq. eauto.
  - destruct (ins_ok_dict _ _ _ _ _ Hins) as (d & d' & -> & ->).
    rewrite ins_cons in Hins.
    destruct (ins ps name tree _) as [child'| |] eqn:Hchild; simplify_eq/=.
    rewrite lookup_insert_eq. by eapply IH.
Qed.

(** What is found at a path stays as it is, unless the record's path
    is a prefix of that path or that path a prefix of the record's. *)
Lemma ins_lookup_other dirs name tree : ∀ P t t',
  ins dirs name tree t = Ok t' →
  ¬ P `prefix_of` (dirs ++ [name]) →
  ¬ (dirs ++ [name]) `prefix_of` P →
  lookup_path t' P = lookup_path t P.
Proof.
  induction dirs as [|p ps IH]; intros P t t' Hins HP1 HP2.
  - destruct (ins_ok_dict _ _ _ _ _ Hins) as (d & d' & -> & ->).
    destruct P as [|k P]; [destruct HP1; apply prefix_nil|].
    unfold ins in Hins. simpl in Hins |- *.
    destruct (decide (k = name)) as [->|Hne].
    { destruct HP2. by apply prefix_cons, prefix_nil. }
    destruct tree; simplify_eq/=.
    + by rewrite setdefault_lookup_ne.
    + by rewrite lookup_insert_ne.
  - destruct (ins_ok_dict _ _ _ _ _ Hins) as (d & d' & -> & ->).
    destruct P as [|k P]; [destruct HP1; apply prefix_nil|].
    rewrite ins_cons in Hins.
    destruct (ins ps name tree _) as [child'| |] eqn:Hchild; simplify_eq/=.
    destruct (decide (k = p)) as [->|Hne]; [|by rewrite lookup_insert_ne].
    rewrite lookup_insert_eq.
    rewrite (IH P _ _ Hchild).
    + destruct (d !! p) as [child|]; [done|]. simpl.
      destruct P as [|k P]; [|simpl; by rewrite lookup_empty].
      destruct HP1. by apply prefix_cons, prefix_nil.
    + intros Hpre. apply HP1. by apply prefix_cons.
    + intros Hpre. apply HP2. by apply prefix_cons.
Qed.

(** A value below the path of a tree record, or a leaf at the path of
    a record that is not a proper prefix, survives. *)
Lemma ins_keeps_present dirs name tree : ∀ P t t',
  ins dirs name tree t = Ok t' →
  is_Some (lookup_path t P) →
  ¬ (tree = false ∧ proper_prefix (dirs ++ [name]) P) →
  is_Some (lookup_path t' P).
Proof.
  induction dirs as [|p ps IH]; intros P t t' Hins HP Hno.
  - destruct (ins_ok_dict _ _ _ _ _ Hins) as (d & d' & -> & ->).
    destruct P as [|k P]; [simpl; eauto|].
    unfold ins in Hins. simpl in Hins, HP |- *.
    destruct (decide (k = name)) as [->|Hne].
    + destruct tree; simplify_eq/=.
      * rewrite setdefault_lookup. by destruct (d !! name).
      * rewrite lookup_insert_eq. destruct P as [|k P]; [simpl; eauto|].
        destruct Hno. split; [done|]. split; [|done].
        by apply prefix_cons, prefix_nil.
    + destruct tree; simplify_eq/=.
      * by rewrite setdefault_lookup_ne.
      * by rewrite lookup_insert_ne.
  - destruct (ins_ok_dict _ _ _ _ _ Hins) as (d & d' & -> & ->).
    destruct P as [|k P]; [simpl; eauto|].
    rewrite ins_cons in Hins.
    destruct (ins ps name tree _) as [child'| |] eqn:Hchild; simplify_eq/=.
    destruct (decide (k = p)) as [->|Hne]; [|by rewrite lookup_insert_ne].
    rewrite lookup_insert_eq.
    destruct (d !! p) as [child|] eqn:Hp; [|by destruct HP]. simpl in Hchild.
    eapply IH; [done..|]. intros [-> [Hpre Hneq]]. apply Hno. split; [done|].
    split; [by apply prefix_cons|]. intros [= Heq]. done.
Qed.

Lemma ins_keeps_leaf dirs name tree : ∀ P t t',
  ins dirs name tree t = Ok t' →
  lookup_path t P = Some VNone →
  ¬ (tree = false ∧ proper_prefix (dirs ++ [name]) P) →
  lookup_path t' P = Some VNone.
Proof.
  induction dirs as [|p ps IH]; intros P t t' Hins HP Hno.
  - destruct (ins_ok_dict _ _ _ _ _ Hins) as (d & d' & -> & ->).
    destruct P as [|k P]; [done|].
    unfold ins in Hins. simpl in Hins, HP |- *.
    destruct (decide (k = name)) as [->|Hne].
    + destruct tree; simplify_eq/=.
      * rewrite setdefault_lookup. by destruct (d !! name).
      * rewrite lookup_insert_eq. destruct P as [|k P]; [done|].
        destruct Hno. split; [done|]. split; [|done].
        by apply prefix_cons, prefix_nil.
    + destruct tree; simplify_eq/=.
      * by rewrite setdefault_lookup_ne.
      * by rewrite lookup_insert_ne.
  - destruct (ins_ok_dict _ _ _ _ _ Hins) as (d & d' & -> & ->).
    destruct P as [|k P]; [done|].
    rewrite ins_cons in Hins.
    destruct (ins ps name tree _) as [child'| |] eqn:Hchild; simplify_eq/=.
    destruct (decide (k = p)) as [->|Hne]; [|by rewrite lookup_insert_ne].
    rewrite lookup_insert_eq.
    destruct (d !! p) as [child|] eqn:Hp; [|done]. simpl in Hchild.
    eapply IH; [done..|]. intros [-> [Hpre Hneq]]. apply Hno. split; [done|].
    split; [by apply prefix_cons|]. intros [= Heq]. done.
Qed.

(** Whatever is found after an insertion was there before or lies on
    the record's path. *)
Lemma ins_lookup_origin dirs name tree : ∀ P t t',
  ins dirs name tree t = Ok t' →
  is_Some (lookup_path t' P) →
  is_Some (lookup_path t P) ∨ P `prefix_of` (dirs ++ [name]).
Proof.
  induction dirs as [|p ps IH]; intros P t t' Hins HP.
  - destruct (ins_ok_dict _ _ _ _ _ Hins) as (d & d' & -> & ->).
    destruct P as [|k P]; [left; simpl; eauto|].
    unfold ins in Hins. simpl in Hins, HP |- *.
    destruct (decide (k = name)) as [->|Hne].
    + destruct tree; simplify_eq/=.
      * rewrite setdefault_lookup in HP.
        destruct (d !! name); simpl in HP; [by left|].
        destruct P as [|k P]; [by right|]. simpl in HP.
        rewrite lookup_empty in HP. by destruct HP.
      * rewrite lookup_insert_eq in HP. destruct P; [by right|].
        by destruct HP.
    + destruct tree; simplify_eq/=.
      * rewrite setdefault_lookup_ne in HP by done. by left.
      * rewrite lookup_insert_ne in HP by done. by left.
  - destruct (ins_ok_dict _ _ _ _ _ Hins) as (d & d' & -> & ->).
    destruct P as [|k P]; [left; simpl; eauto|].
    rewrite ins_cons in Hins.
    destruct (ins ps name tree _) as [child'| |] eqn:Hchild; simplify_eq/=.
    destruct (decide (k = p)) as [->|Hne].
    + rewrite lookup_insert_eq in HP.
      destruct (IH _ _ _ Hchild HP) as [Hold|Hpre].
      * destruct (d !! p) as [child|]; [by left|]. simpl in Hold.
        destruct P as [|k P]; [right; by apply prefix_cons, prefix_nil|].
        simpl in Hold. rewrite lookup_empty in Hold. by destruct Hold.
      * right. by apply prefix_cons.
    + rewrite lookup_insert_ne in HP by done. by left.
Qed.

(** Processing a record a second time changes nothing. *)
Lemma ins_idempotent dirs name tree : ∀ t t',
  ins dirs name tree t = Ok t' → ins dirs name tree t' = Ok t'.
Proof.
  induction dirs as [|p ps IH]; intros t t' Hins.
  - destruct (ins_ok_dict _ _ _ _ _ Hins) as (d & d' & -> & ->).
    unfold ins in *. simpl in *. destruct tree; simplify_eq/=.
    + do 2 f_equal. unfold setdefault at 1. by rewrite setdefault_lookup.
    + by rewrite insert_insert_eq.
  - destruct (ins_ok_dict _ _ _ _ _ Hins) as (d & d' & -> & ->).
    rewrite ins_cons in Hins |- *.
    destruct (ins ps name tree _) as [child'| |] eqn:Hchild; simplify_eq/=.
    rewrite lookup_insert_eq. simpl. rewrite (IH _ _ Hchild). simpl.
    by rewrite insert_insert_eq.
Qed.


Lemma add_items_consistent (todo : list TreeEntry) : ∀ done t,
  consistent (done ++ todo) →
  loop_invariant done t →
  ∃ t', add_items t (item_of <$> todo) = Ok t'
        ∧ loop_invariant (done ++ todo) t'.
Proof.
  induction todo as [|e todo IH]; intros done t Hcons Hinv.
  - exists t. rewrite app_nil_r. done.
  - destruct Hinv as (Hd & Hleaves & Hfiles).
    assert (He : e ∈ done ++ e :: todo).
    { apply elem_of_app. right. left. }
    assert (Hdone : ∀ f, f ∈ done → f ∈ done ++ e :: todo).
    { intros f Hf. apply elem_of_app. by left. }
    destruct (add_entry_ok_iff e t Hd) as [_ Hok].
    destruct Hok as [t1 H1].
    { intros P HP Hpre Hleaf.
      destruct (Hleaves P Hleaf) as (f & Hf & Hfile & <-).
      by apply (Hcons f e (Hdone f Hf) He Hfile). }
    rewrite fmap_cons. simpl. rewrite add_item_item_of, H1. simpl.
    replace (done ++ e :: todo) with ((done ++ [e]) ++ todo) in *
      by (by rewrite <-app_assoc).
    apply IH; [done|].
    pose proof H1 as Hins. rewrite add_entry_ins in Hins.
    split; [by eapply add_entry_dir_node|]. split.
    + intros Q HQ.
      destruct (ins_leaf_origin _ _ _ _ _ _ Hins HQ) as [Hold|[Hfile HQe]].
      * destruct (Hleaves Q Hold) as (f & Hf & ? & ?). exists f.
        split; [|done]. apply elem_of_app. by left.
      * exists e. split; [apply elem_of_app; right; left|].
        split; [done|]. by rewrite <-HQe, parts_snoc.
    + intros f [Hf| ->%list_elem_of_singleton]%elem_of_app Hfile.
      * eapply ins_keeps_leaf; [done|by apply Hfiles|].
        rewrite parts_snoc. intros [Hefile Hpre].
        apply (Hcons e f); [| |done..].
        -- apply elem_of_app. left. apply elem_of_app. right. left.
        -- apply elem_of_app. left. apply elem_of_app. by left.
      * rewrite <-(parts_snoc e). rewrite Hfile in Hins.
        by eapply ins_file_leaf.
Qed.

Lemma add_items_lookup_origin (es : list TreeEntry) : ∀ t t' P,
  add_items t (item_of <$> es) = Ok t' →
  is_Some (lookup_path t' P) →
  is_Some (lookup_path t P) ∨ ∃ e, e ∈ es ∧ P `prefix_of` parts e.
Proof.
  induction es as [|e es IH]; intros t t' P Hadd HP; simpl in Hadd.
  - injection Hadd as <-. by left.
  - rewrite add_item_item_of in Hadd.
    destruct (add_entry e t) as [t1| |] eqn:H1; simpl in Hadd; [|done..].
    destruct (IH _ _ _ Hadd HP) as [Hold|(e' & He' & Hpre)].
    + rewrite add_entry_ins in H1.
      destruct (ins_lookup_origin _ _ _ _ _ _ H1 Hold) as [?|Hpre]; [by left|].
      right. exists e. split; [left|]. by rewrite <-parts_snoc.
    + right. exists e'. split; [by right|done].
Qed.

(** X12: for a listing in which no non-tree record's path is a proper
    prefix of another record's path, the builder completes, every
    non-tree record is a file leaf at its path, and every tree record
    whose path no non-tree record shares is a dict at its path. *)
Theorem consistent_listing_builds (es : list TreeEntry) :
  consistent es →
  ∃ t, tree_dict_of (VList (item_of <$> es)) = Ok t
       ∧ (∀ f, f ∈ es → is_tree f = false →
               lookup_path t (parts f) = Some VNone)
       ∧ (∀ e, e ∈ es → is_tree e = true →
               (∀ f, f ∈ es → is_tree f = false → parts f ≠ parts e) →
               ∃ d, lookup_path t (parts e) = Some (VDict d)).
Proof.
  intros Hcons.
  destruct (add_items_consistent es [] (VDict ∅)) as (t & Hadd & Hinv).
  - done.
  - split; [apply dir_node_empty|]. split.
    + intros [|k Q]; simpl; [done|]. by rewrite lookup_empty.
    + intros f Hf. by apply elem_of_nil in Hf.
  - exists t. unfold tree_dict_of. simpl. split; [done|].
    destruct Hinv as (_ & _ & Hfiles). split; [done|].
    intros e He Htree Hshare.
    eapply add_items_keep_directory; [done|apply dir_node_empty| |].
    + intros f Hf Hfile Hpre. destruct (decide (parts f = parts e)) as [Heq|Hne].
      * by apply (Hshare f).
      * by apply (Hcons f e).
    + right. split.
      * destruct (parts e); simpl; [done|]. by rewrite lookup_empty.
      * exists e. split; [done|]. by left.
Qed.

(** X13: whatever is found in the tree the builder returns lies on the
    path of a record of the listing: the result holds no name that the
    listing does not give. *)
Theorem tree_paths_come_from_listing
    (es : list TreeEntry) (t : pyval) (P : list string) :
  tree_dict_of (VList (item_of <$> es)) = Ok t →
  is_Some (lookup_path t P) →
  P = [] ∨ ∃ e, e ∈ es ∧ P `prefix_of` parts e.
Proof.
  unfold tree_dict_of. simpl. intros Hadd HP.
  destruct (add_items_lookup_origin _ _ _ _ Hadd HP) as [Hempty|?]; [|by right].
  destruct P as [|k P]; [by left|]. simpl in Hempty.
  rewrite lookup_empty in Hempty. by destruct Hempty.
Qed.

(** X14: a record processed a second time, right after the first,
    changes nothing: the loop body completes again with the same tree. *)
Theorem add_item_twice (e : TreeEntry) (t t' : pyval) :
  add_item t (item_of e) = Ok t' → add_item t' (item_of e) = Ok t'.
Proof. rewrite !add_item_item_of, !add_entry_ins. apply ins_idempotent. Qed.

(** X15: one iteration of the loop leaves untouched what is found at any
    path that is neither a prefix of the record's path nor has it as a
    prefix. *)
Theorem add_item_frame (e : TreeEntry) (t t' : pyval) (P : list string) :
  add_item t (item_of e) = Ok t' →
  ¬ P `prefix_of` parts e →
  ¬ parts e `prefix_of` P →
  lookup_path t' P = lookup_path t P.
Proof.
  intros Hins H1 H2. rewrite add_item_item_of, add_entry_ins in Hins.
  eapply ins_lookup_other; [done| |]; by rewrite parts_snoc.
Qed.

End builder_more.

(** * Further properties of the renderer *)

Section renderer_more.
Import PyStr UrlLib PyIn.

Lemma count_nl_app a b : count_nl (a +:+ b) = count_nl a + count_nl b.
Proof.
  induction a as [|x a IH]; [done|].
  change (String x a +:+ b) with (String x (a +:+ b)). simpl. rewrite IH. lia.
Qed.

Lemma count_nl_concat l :
  count_nl (concat_strings l) = sum_list_with count_nl l.
Proof.
  induction l as [|x l IH]; simpl; [done|]. by rewrite count_nl_app, IH.
Qed.

Lemma count_nl_spec_prefix ancestors : count_nl (spec_prefix ancestors) = 0.
Proof.
  induction ancestors as [|b l IH]; simpl; [done|].
  rewrite count_nl_app, IH. by destruct b.
Qed.

Lemma count_nl_spec_line ancestors is_last name is_dir :
  count_nl (spec_line ancestors is_last name is_dir) = S (count_nl name).
Proof.
  unfold spec_line. rewrite !count_nl_app, count_nl_spec_prefix.
  destruct is_last, is_dir; simpl; lia.
Qed.

Lemma filter_rendered_perm (l : list (string * pyval)) :
  filter (λ kv, rendered kv.2 = true) l
  ≡ₚ filter (λ kv, is_dict kv.2 = true) l
     ++ filter (λ kv, is_none kv.2 = true) l.
Proof.
  induction l as [|[k v] l IH]; [done|].
  rewrite !filter_cons. unfold rendered. simpl.
  destruct v; simpl; repeat case_decide; try done; simpl; rewrite IH;
    try done.
  by rewrite Permutation_middle.
Qed.

Lemma listing_perm (d : gmap string pyval) :
  listing d ≡ₚ (filter (λ kv, rendered kv.2 = true) (map_to_list d)).*1.
Proof.
  unfold listing, folders_of, files_of, sorted.
  rewrite !merge_sort_Permutation, filter_rendered_perm, fmap_app. done.
Qed.

(** A sum over the entries of a dict that the renderer lists is the sum
    over the listing. *)
Lemma map_fold_listing (g : string → pyval → nat) (d : gmap string pyval) :
  map_fold (λ k c n, (if rendered c then g k c else 0) + n) 0 d
  = sum_list_with (λ k, g k (default VNone (d !! k))) (listing d).
Proof.
  rewrite map_fold_foldr, listing_perm.
  assert (Hin : ∀ kv, kv ∈ map_to_list d → d !! kv.1 = Some kv.2).
  { intros [k v] Hkv. by apply elem_of_map_to_list. }
  induction (map_to_list d) as [|[k v] l IH]; [done|].
  rewrite filter_cons. simpl.
  assert (Hk : d !! k = Some v) by (apply (Hin (k, v)); left).
  rewrite IH by (intros kv Hkv; apply Hin; by right).
  destruct (rendered v) eqn:Hv; case_decide; try done.
  simpl. by rewrite Hk.
Qed.

Lemma sum_list_with_imap {A B} (h : B → nat) (h' : A → nat)
    (l : list A) : ∀ (f : nat → A → B),
  (∀ i x, l !! i = Some x → h (f i x) = h' x) →
  sum_list_with h (imap f l) = sum_list_with h' l.
Proof.
  induction l as [|x l IH]; intros f Hf; simpl; [done|].
  rewrite (Hf 0 x eq_refl). f_equal. apply IH. intros i y Hy. by apply (Hf (S i)).
Qed.

Lemma sum_list_with_ext_in {A} (f g : A → nat) (l : list A) :
  (∀ x, x ∈ l → f x = g x) → sum_list_with f l = sum_list_with g l.
Proof.
  induction l as [|x l IH]; intros H; simpl; [done|].
  rewrite (H x) by left. f_equal. apply IH. intros y Hy. apply H. by right.
Qed.

Lemma sum_list_with_add {A} (f g : A → nat) (l : list A) :
  sum_list_with (λ x, f x + g x) l = sum_list_with f l + sum_list_with g l.
Proof. induction l as [|x l IH]; simpl; [done|]. rewrite IH. lia. Qed.

Lemma size_of_child (d : gmap string pyval) k c :
  d !! k = Some c → (size_of c < size_of (VDict d))%nat.
Proof.
  intros Hk. change (size_of (VDict d))
    with (S (map_fold (λ _ c n, size_of c + n) 0 d)).
  rewrite (size_children_delete d k c Hk). lia.
Qed.

Lemma render_spec_line_feeds n : ∀ t ancestors,
  (size_of t ≤ n)%nat →
  count_nl (render_spec t ancestors) = descendants t + name_line_feeds t.
Proof.
  induction n as [|n IH]; intros t ancestors Hsize.
  { pose proof (size_of_pos t). lia. }
  destruct t as [| | | | |d]; try done.
  rewrite render_spec_dict, count_nl_concat.
  change (descendants (VDict d))
    with (map_fold (λ _ c n, (if rendered c then S (descendants c) else 0) + n)
            0 d).
  change (name_line_feeds (VDict d))
    with (map_fold (λ k c n,
            (if rendered c then count_nl k + name_line_feeds c else 0) + n) 0 d).
  rewrite (map_fold_listing (λ _ c, S (descendants c))).
  rewrite (map_fold_listing (λ k c, count_nl k + name_line_feeds c)).
  rewrite <-sum_list_with_add.
  rewrite fmap_imap.
  apply sum_list_with_imap. intros i k Hk.
  destruct (listing_lookup d k) as [c Hc].
  { apply list_elem_of_lookup. eauto. }
  unfold compose, frame_text, child_frame. cbn [fst snd]. rewrite Hc.
  change (default VNone (Some c)) with c.
  rewrite line_of_child, count_nl_app, count_nl_spec_line.
  rewrite (IH c) by (pose proof (size_of_child d k c Hc); lia).
  lia.
Qed.

(** X16: the rendered string holds one line feed for the first line
    [Root], one for every file and directory of the tree at any depth,
    and the line feeds that occur inside their names; so a tree whose
    names hold no line feed is rendered on as many lines as it has files
    and directories, plus one. *)
Theorem tree_string_line_count (tree_dict : pyval) :
  ∃ s, tree_string_of tree_dict = Ok s
       ∧ count_nl s
         = 1 + descendants tree_dict + name_line_feeds tree_dict.
Proof.
  exists ("Root" +:+ nl +:+ render_spec tree_dict []).
  split; [apply tree_string_of_spec|].
  rewrite !count_nl_app, (render_spec_line_feeds (size_of tree_dict)) by done.
  done.
Qed.

End renderer_more.

(** * Properties of the dashboard pages *)

Section page_facts.
Import PyStr UrlLib PyIn.
#[local] Set Warnings "-clear-no-such-hyp".
Context {checks : UrlChecks} {num : NumBuiltin}.
Import Home.

Lemma options_set_dict (k v : string) (ss : session) (ev : list event) o :
  ss !! "options" = Some (VDict o) →
  options_set k v ss ev
  = (Ok tt, (<["options" := VDict (<[k := VStr v]> o)]> ss, ev)).
Proof. intros Ho. unfold options_set, then_, state_get, of_result. by rewrite Ho. Qed.

Lemma options_get_dict (k : string) (ss : session) (ev : list event) o :
  ss !! "options" = Some (VDict o) →
  options_get k ss ev
  = (match o !! k with Some x => Ok x | None => Raise KeyError end, (ss, ev)).
Proof. intros Ho. unfold options_get, then_, state_get, of_result. by rewrite Ho. Qed.

Lemma gemini_api_check_nonempty env key :
  Gemini.api_check env key = true → key ≠ EmptyString.
Proof. unfold Gemini.api_check. by destruct key. Qed.

Lemma no_banner_snoc (ev : list event) (e : event) :
  (∀ m, e ≠ Success m) → no_banner ev → no_banner (ev ++ [e]).
Proof.
  intros He Hev m [Hin|Hin]%elem_of_app; [by eapply Hev|].
  apply list_elem_of_singleton in Hin. by eapply He.
Qed.

(** The effect of the save handler on the stored options. *)
Lemma save_options_ok env api_key repository_url (ss : session) ev
    outcome ss' ev' :
  options_ok ss →
  save env api_key repository_url ss ev = (outcome, (ss', ev')) →
  options_ok ss' ∧ dom ss' ⊆ dom ss ∪ {["options"; "contents"]}
  ∧ (no_banner ev → no_banner ev').
Proof.
  intros (o & k & ty & u & Ho & Hk & Hty & Hu & Hkt & Hurl) Hsave.
  unfold save in Hsave.
  unfold then_ at 1 in Hsave. unfold of_result at 1 in Hsave.
  destruct (gpt_api_check env api_key) as [gpt_ok| |];
    [|injection Hsave as <- <- <-;
      (split; [by exists o, k, ty, u|split; [apply union_subseteq_l|done]])..].
  set (key_part := if gpt_ok then _ else _) in Hsave.
  assert (Hkey : ∃ o1 k1 ty1 ev1,
    key_part ss ev = (Ok tt, (<["options" := VDict o1]> ss, ev1))
    ∧ o1 !! "api_key" = Some (VStr k1)
    ∧ o1 !! "api_type" = Some (VStr ty1)
    ∧ o1 !! "repository_url" = Some (VStr u)
    ∧ ((ty1 = "" ∧ k1 = "") ∨ ty1 = "GPT" ∨ (ty1 = "GEMINI" ∧ k1 ≠ ""))
    ∧ (no_banner ev → no_banner ev1)).
  { unfold key_part.
    destruct gpt_ok; [|destruct (Gemini.api_check env api_key) eqn:Hg].
    - exists (<["api_type" := VStr "GPT"]> (<["api_key" := VStr api_key]> o)),
        api_key, "GPT", (ev ++ [SidebarSuccess "올바른 API 키(Gpt)"]).
      unfold then_. rewrite (options_set_dict _ _ _ _ o Ho).
      rewrite (options_set_dict _ _ _ _ (<["api_key" := VStr api_key]> o))
        by apply lookup_insert_eq.
      rewrite insert_insert_eq. split; [done|].
      rewrite lookup_insert_ne, lookup_insert_eq by done.
      rewrite lookup_insert_eq. rewrite !lookup_insert_ne by done.
      repeat split; [done..|naive_solver|by apply no_banner_snoc].
    - exists (<["api_type" := VStr "GEMINI"]> (<["api_key" := VStr api_key]> o)),
        api_key, "GEMINI", (ev ++ [SidebarSuccess "올바른 API 키(Gemini)"]).
      unfold then_. rewrite (options_set_dict _ _ _ _ o Ho).
      rewrite (options_set_dict _ _ _ _ (<["api_key" := VStr api_key]> o))
        by apply lookup_insert_eq.
      rewrite insert_insert_eq. split; [done|].
      rewrite lookup_insert_ne, lookup_insert_eq by done.
      rewrite lookup_insert_eq. rewrite !lookup_insert_ne by done.
      apply gemini_api_check_nonempty in Hg.
      repeat split; [done..|naive_solver|by apply no_banner_snoc].
    - exists (<["api_type" := VStr ""]> (<["api_key" := VStr ""]> o)),
        "", "", (ev ++ [SidebarError "잘못된 API 키"]).
      unfold then_. rewrite (options_set_dict _ _ _ _ o Ho).
      rewrite (options_set_dict _ _ _ _ (<["api_key" := VStr ""]> o))
        by apply lookup_insert_eq.
      rewrite insert_insert_eq. split; [done|].
      rewrite lookup_insert_ne, lookup_insert_eq by done.
      rewrite lookup_insert_eq. rewrite !lookup_insert_ne by done.
      repeat split; [done..|naive_solver|by apply no_banner_snoc]. }
  destruct Hkey
    as (o1 & k1 & ty1 & ev1 & Hpart & Hk1 & Hty1 & Hu1 & Hkt1 & Hev1).
  clearbody key_part.
  assert (Hdom1 : dom (<["options" := VDict o1]> ss)
                  ⊆ dom ss ∪ {["options"; "contents"]}).
  { rewrite dom_insert_L. set_solver. }
  assert (Ho1 : (<["options" := VDict o1]> ss) !! "options" = Some (VDict o1))
    by apply lookup_insert_eq.
  unfold then_ at 1 in Hsave. rewrite Hpart in Hsave.
  unfold then_ at 1 in Hsave. unfold of_result at 1 in Hsave.
  destruct (url_check repository_url) as [url_ok| |] eqn:Hcheck;
    [|injection Hsave as <- <- <-;
      (split; [by exists o1, k1, ty1, u|done])..].
  set (ss1 := <["options" := VDict o1]> ss) in *.
  set (url_part := if url_ok then _ else _) in Hsave.
  assert (Hurlpart : ∃ u2 ev2,
    url_part ss1 ev1
    = (Ok tt, (<["options" := VDict (<["repository_url" := VStr u2]> o1)]> ss1,
               ev2))
    ∧ (u2 = "" ∨ url_check u2 = Ok true)
    ∧ (no_banner ev1 → no_banner ev2)).
  { unfold url_part. destruct url_ok.
    - exists repository_url, (ev1 ++ [SidebarSuccess "올바른 Repository 링크"]).
      unfold then_. rewrite (options_set_dict _ _ _ _ o1 Ho1). split; [done|].
      split; [by right|by apply no_banner_snoc].
    - exists "", (ev1 ++ [SidebarError "잘못된 Repository 링크"]).
      unfold then_. rewrite (options_set_dict _ _ _ _ o1 Ho1). split; [done|].
      split; [by left|by apply no_banner_snoc]. }
  destruct Hurlpart as (u2 & ev2 & Hpart2 & Hu2 & Hev2). clearbody url_part.
  unfold then_ at 1 in Hsave. rewrite Hpart2 in Hsave.
  unfold then_, state_get, state_set in Hsave.
  rewrite lookup_insert_eq in Hsave. injection Hsave as <- <- <-.
  split; [|split].
  - exists (<["repository_url" := VStr u2]> o1), k1, ty1, u2.
    rewrite lookup_insert_ne, lookup_insert_eq by done.
    rewrite !lookup_insert_ne by done. rewrite lookup_insert_eq. done.
  - rewrite !dom_insert_L. unfold ss1. rewrite dom_insert_L. set_solver.
  - auto.
Qed.

Lemma initial_options_ok (ss : session) :
  options_ok (<["options" := initial_options]> ss).
Proof.
  exists {[ "language" := VStr "Korean"; "api_key" := VStr "";
            "api_type" := VStr ""; "repository_url" := VStr "" ]}, "", "", "".
  rewrite lookup_insert_eq. repeat split; try done; by left.
Qed.

Lemma options_ok_insert_other (ss : session) (k : string) (v : pyval) :
  k ≠ "options" → options_ok ss → options_ok (<[k := v]> ss).
Proof.
  intros Hk (o & key & ty & u & Ho & H). exists o, key, ty, u.
  by rewrite lookup_insert_ne.
Qed.

(** The banner alone: it writes nothing, and it is the success banner
    only over a non-empty stored key and a non-empty stored URL. *)
Lemma banner_result (ss : session) ev outcome ss' ev' :
  options_ok ss → no_banner ev →
  banner ss ev = (outcome, (ss', ev')) →
  ss' = ss
  ∧ ∀ m, Success m ∈ ev' →
      ∃ o k u, ss !! "options" = Some (VDict o)
               ∧ o !! "api_key" = Some (VStr k) ∧ k ≠ ""
               ∧ o !! "repository_url" = Some (VStr u) ∧ u ≠ "".
Proof.
  intros (o & k & ty & u & Ho & Hk & Hty & Hu & Hkt & Hurl) Hev Hb.
  unfold banner in Hb. unfold then_ at 1 in Hb.
  rewrite (options_get_dict _ _ _ o Ho), Hk in Hb. cbn [py_truthy] in Hb.
  destruct k as [|a k].
  - cbn in Hb. injection Hb as <- <- <-. split; [done|].
    intros m [Hin|Hin]%elem_of_app; [by destruct (Hev m)|].
    by apply list_elem_of_singleton in Hin.
  - cbn [truthy] in Hb. unfold then_ at 1 2 in Hb.
    rewrite (options_get_dict _ _ _ o Ho), Hu in Hb.
    unfold pure in Hb. cbn [py_truthy] in Hb.
    destruct u as [|b u].
    + cbn in Hb. injection Hb as <- <- <-. split; [done|].
      intros m [Hin|Hin]%elem_of_app; [by destruct (Hev m)|].
      by apply list_elem_of_singleton in Hin.
    + cbn in Hb. injection Hb as <- <- <-. split; [done|].
      intros _ _. by exists o, (String a k), (String b u).
Qed.

(** One run of the home page from a session that has no options yet, or
    well-formed ones. *)
Lemma run_result env input (ss : session) outcome ss' ev' :
  ss !! "options" = None ∨ options_ok ss →
  run env input ss [] = (outcome, (ss', ev')) →
  options_ok ss' ∧ dom ss' ⊆ dom ss ∪ {["options"; "contents"]}
  ∧ ∀ m, Success m ∈ ev' →
      ∃ o k u, ss' !! "options" = Some (VDict o)
               ∧ o !! "api_key" = Some (VStr k) ∧ k ≠ ""
               ∧ o !! "repository_url" = Some (VStr u) ∧ u ≠ "".
Proof.
  intros Hss Hrun. unfold run in Hrun.
  unfold then_ at 1 in Hrun. unfold emit at 1 in Hrun.
  rewrite app_nil_l in Hrun.
  unfold then_ at 1 in Hrun.
  set (ss1 := if bool_decide (is_Some (ss !! "options")) then ss
              else <["options" := initial_options]> ss).
  assert (Hinit1 :
    (if bool_decide (is_Some (ss !! "options"))
     then (Ok tt, (ss, [PageConfig]))
     else state_set "options" initial_options ss [PageConfig])
    = (Ok tt, (ss1, [PageConfig]))).
  { unfold ss1, state_set. by case_bool_decide. }
  rewrite Hinit1 in Hrun. clear Hinit1.
  assert (Hok1 : options_ok ss1).
  { unfold ss1. case_bool_decide as Hsome.
    - destruct Hss as [Hnone|Hok]; [|done].
      rewrite Hnone in Hsome. by destruct Hsome.
    - apply initial_options_ok. }
  assert (Hdom1 : dom ss1 ⊆ dom ss ∪ {["options"; "contents"]}).
  { unfold ss1. case_bool_decide; [|rewrite dom_insert_L]; set_solver. }
  clearbody ss1.
  unfold then_ at 1 in Hrun.
  set (ss2 := if bool_decide (is_Some (ss1 !! "contents")) then ss1
              else <["contents" := initial_contents]> ss1).
  assert (Hinit2 :
    (if bool_decide (is_Some (ss1 !! "contents"))
     then (Ok tt, (ss1, [PageConfig]))
     else state_set "contents" initial_contents ss1 [PageConfig])
    = (Ok tt, (ss2, [PageConfig]))).
  { unfold ss2, state_set. by case_bool_decide. }
  rewrite Hinit2 in Hrun. clear Hinit2.
  assert (Hok2 : options_ok ss2).
  { unfold ss2. case_bool_decide; [done|].
    by apply options_ok_insert_other. }
  assert (Hcontents : is_Some (ss2 !! "contents")).
  { unfold ss2. case_bool_decide; [done|]. by rewrite lookup_insert_eq. }
  assert (Hdom2 : dom ss2 ⊆ dom ss ∪ {["options"; "contents"]}).
  { unfold ss2. case_bool_decide; [|rewrite dom_insert_L]; set_solver. }
  clearbody ss2. clear ss1 Hok1 Hdom1.
  destruct (Hok2) as (o & k & ty & u & Ho & Hk & Hty & Hu & _).
  destruct Hcontents as [c Hc].
  unfold then_ at 1 in Hrun. unfold state_get at 1 in Hrun. rewrite Ho in Hrun.
  unfold then_ at 1 in Hrun. unfold state_get at 1 in Hrun. rewrite Hc in Hrun.
  unfold then_ at 1 in Hrun. unfold emit at 1 in Hrun.
  unfold then_ at 1 in Hrun. rewrite (options_get_dict _ _ _ o Ho), Hk in Hrun.
  unfold then_ at 1 in Hrun. rewrite (options_get_dict _ _ _ o Ho), Hu in Hrun.
  cbv zeta in Hrun.
  set (ev1 := [PageConfig] ++ [SidebarTitle "Input"]) in Hrun.
  assert (Hev1 : no_banner ev1).
  { intros m Hin. unfold ev1 in Hin. cbn in Hin.
    repeat (apply elem_of_cons in Hin as [Hin|Hin]; [done|]).
    by apply elem_of_nil in Hin. }
  clearbody ev1.
  unfold then_ at 1 in Hrun.
  destruct ((if save_clicked input
             then save env (api_key_input input) (repository_url_input input)
             else pure tt) ss2 ev1) as [saved [ss3 ev3]] eqn:Hsaved.
  assert (Hok3 : options_ok ss3
                 ∧ dom ss3 ⊆ dom ss ∪ {["options"; "contents"]}
                 ∧ no_banner ev3).
  { destruct (save_clicked input).
    - apply save_options_ok in Hsaved as (? & ? & ?); [|done].
      split; [done|]. split; [set_solver|auto].
    - injection Hsaved as <- <- <-. done. }
  destruct Hok3 as (Hok3 & Hdom3 & Hev3).
  destruct saved as [[]| |];
    [|injection Hrun as <- <- <-;
      (split; [done|]; split; [done|]; intros m Hin; by destruct (Hev3 m))..].
  unfold then_ at 1 in Hrun. unfold emit at 1 in Hrun.
  unfold then_ at 1 in Hrun. unfold emit at 1 in Hrun.
  unfold then_ at 1 in Hrun. unfold emit at 1 in Hrun.
  apply banner_result in Hrun as [-> Hbanner]; [done|done|].
  apply no_banner_snoc; [done|]. apply no_banner_snoc; [done|].
  by apply no_banner_snoc.
Qed.

Lemma session_after_ok env input (ss : session) :
  ss !! "options" = None ∨ options_ok ss →
  options_ok (session_after env input ss)
  ∧ dom (session_after env input ss) ⊆ dom ss ∪ {["options"; "contents"]}.
Proof.
  intros Hss. unfold session_after.
  destruct (run env input ss []) as [outcome [ss' ev']] eqn:Hrun.
  apply run_result in Hrun as (? & ? & _); done.
Qed.

Lemma sessions_after_ok runs (ss : session) :
  options_ok ss →
  options_ok (sessions_after runs ss)
  ∧ dom (sessions_after runs ss) ⊆ dom ss ∪ {["options"; "contents"]}.
Proof.
  revert ss. induction runs as [|r runs IH]; intros ss Hok.
  - split; [done|set_solver].
  - cbn. destruct (session_after_ok r.1 r.2 ss) as [Hok' Hdom']; [by right|].
    destruct (IH _ Hok') as [Hok'' Hdom'']. split; [done|]. set_solver.
Qed.

Lemma sessions_after_fresh runs :
  dom (sessions_after runs (∅ : session)) ⊆ {["options"; "contents"]}
  ∧ (runs = [] ∨ options_ok (sessions_after runs ∅)).
Proof.
  destruct runs as [|r runs]; [split; [set_solver|by left]|].
  cbn. destruct (session_after_ok r.1 r.2 ∅) as [Hok Hdom]; [by left|].
  destruct (sessions_after_ok runs _ Hok) as [Hok' Hdom'].
  split; [set_solver|by right].
Qed.

(** X17: after any number of runs of the home page from a fresh session,
    whatever the user entered, whatever the key checks answered and
    also when a run ended in an exception, the session holds nothing
    but the options and the contents, and the stored options are well
    formed: in particular the stored repository URL is empty or one
    that [url_check] accepts. *)
Theorem home_sessions_well_formed runs r :
  options_ok (sessions_after (r :: runs) ∅)
  ∧ dom (sessions_after (r :: runs) (∅ : session))
    ⊆ {["options"; "contents"]}.
Proof.
  destruct (sessions_after_fresh (r :: runs)) as [Hdom [?|Hok]]; done.
Qed.

(** X18: the home page shows its success banner only over a stored API
    key that is not empty, of type GPT or GEMINI, and a stored
    repository URL that [url_check] accepts. *)
Theorem success_banner_means_valid_options runs env input outcome ss' ev' m :
  run env input (sessions_after runs ∅) [] = (outcome, (ss', ev')) →
  Success m ∈ ev' →
  ∃ o k ty u,
    ss' !! "options" = Some (VDict o)
    ∧ o !! "api_key" = Some (VStr k) ∧ k ≠ ""
    ∧ o !! "api_type" = Some (VStr ty) ∧ (ty = "GPT" ∨ ty = "GEMINI")
    ∧ o !! "repository_url" = Some (VStr u) ∧ url_check u = Ok true.
Proof.
  intros Hrun Hin.
  destruct (sessions_after_fresh runs) as [_ Hfresh].
  apply run_result in Hrun as (Hok & _ & Hbanner).
  - destruct (Hbanner m Hin) as (o & k & u & Ho & Hk & Hkne & Hu & Hune).
    destruct Hok as (o' & k' & ty & u' & Ho' & Hk' & Hty & Hu' & Hkt & Hurl).
    assert (o' = o) as -> by congruence.
    assert (k' = k) as -> by congruence.
    assert (u' = u) as -> by congruence.
    exists o, k, ty, u. repeat split; try done; naive_solver.
  - destruct Hfresh as [->|Hok]; [by left|by right].
Qed.

End page_facts.

Section page02_facts.
Import PyStr UrlLib PyIn.
#[local] Set Warnings "-clear-no-such-hyp".
Context {checks : UrlChecks} {num : NumBuiltin} {builtin : StrBuiltin}.
Import Home.

(** X19: the environment-setup page reads the session keys [api_token]
    and [repository_url], which the home page never writes: after any
    number of runs of the home page from a fresh session it shows its
    error and stops at the guard, without touching the session. *)
Theorem environment_setup_stops_after_home runs :
  EnvironmentSetup.run_setup (sessions_after runs ∅) []
  = (Ok tt,
     (sessions_after runs ∅,
      [SidebarTitle "Input";
       Error "API Token 과 GitHub URL를 입력해야 이 페이지를 이용할 수 있습니다.";
       Stop])).
Proof.
  destruct (sessions_after_fresh runs) as [Hdom _].
  assert (Hnone : sessions_after runs (∅ : session) !! "api_token" = None).
  { apply not_elem_of_dom. intros Hin. apply Hdom in Hin. set_solver. }
  unfold EnvironmentSetup.run_setup, then_, EnvironmentSetup.state_get_default,
    EnvironmentSetup.disabled_text_input, pure, emit.
  rewrite Hnone. cbn [default EnvironmentSetup.text_truthy].
  rewrite py_str_VStr. done.
Qed.

End page02_facts.

(** * Further examples *)

Section more_examples.
Import PyStr UrlLib PyIn.
#[local] Existing Instance lenient_checks.
#[local] Existing Instance example_str.
#[local] Existing Instance example_rest_world.
#[local] Existing Instance example_base64.
#[local] Existing Instance example_num.

Lemma parse_result_free_of_delimiters_witness :
  contains "/" "acme" = false ∧ contains "/" "widgets" = false.
Proof.
  apply (parse_result_free_of_delimiters (checks := lenient_checks)
           "https://github.com/acme/widgets/tree/main?tab=readme#top").
  - vm_compute; reflexivity.
  - left.
Defined.

Lemma parse_github_url_syntax_witness :
  parse_github_repo_url
    ("https://github.com/" +:+ "acme" +:+ "/" +:+ "widgets" +:+ "/tree/main")
  = Ok (Some "acme", Some "widgets").
Proof.
  apply (parse_github_url_syntax "acme" "widgets" "/tree/main");
    try done; try (by repeat split).
  right. by eexists.
Defined.

Lemma invalid_url_sends_nothing_witness :
  url_branch_list "http://github.com/acme/widgets" [] = (Ok (VList []), [])
  ∧ url_readme_string "http://github.com/acme/widgets" [] = (Ok VNone, [])
  ∧ url_tree_list "http://github.com/acme/widgets" [] = (Ok VNone, [])
  ∧ url_tree_dict "http://github.com/acme/widgets" [] = (Ok VNone, [])
  ∧ url_tree_string "http://github.com/acme/widgets" [] = (Ok VNone, []).
Proof.
  apply (invalid_url_sends_nothing "http://github.com/acme/widgets" []).
  vm_compute; reflexivity.
Defined.

Lemma url_branch_list_names_witness :
  url_branch_list "https://github.com/acme/widgets" []
  = (Ok (VList [VStr "main"; VStr "dev"]),
     [] ++ [sent (branches_endpoint (Some "acme") (Some "widgets")) None]).
Proof.
  apply (url_branch_list_names
           "https://github.com/acme/widgets" "acme" "widgets" []
           {| status_code := 200;
              json := Ok (VList [ VDict {[ "name" := VStr "main" ]};
                                  VDict {[ "name" := VStr "dev" ]} ]) |}
           [ VDict {[ "name" := VStr "main" ]};
             VDict {[ "name" := VStr "dev" ]} ]
           [VStr "main"; VStr "dev"]);
    try (vm_compute; reflexivity).
  repeat constructor.
Defined.

Lemma url_branch_list_missing_name_witness :
  url_branch_list "https://github.com/acme/legacy" []
  = (Raise KeyError,
     [] ++ [sent (branches_endpoint (Some "acme") (Some "legacy")) None]).
Proof.
  apply (url_branch_list_missing_name
           "https://github.com/acme/legacy" "acme" "legacy" []
           {| status_code := 200;
              json := Ok (VList [ VDict {[ "name" := VStr "master" ]};
                                  VDict {[ "sha" := VStr "def" ]} ]) |}
           [ VDict {[ "name" := VStr "master" ]} ] []
           {[ "sha" := VStr "def" ]});
    try (vm_compute; reflexivity).
  constructor; [|constructor]. by exists (VStr "master").
Defined.

Lemma url_readme_string_content_witness :
  url_readme_string "https://github.com/acme/widgets" []
  = (Ok (VStr "Hi"),
     [] ++ [sent (readme_endpoint (Some "acme") (Some "widgets")) None]).
Proof.
  destruct (url_readme_string_content
              "https://github.com/acme/widgets" "acme" "widgets" [] eq_refl)
    as [Hanswered _].
  rewrite (Hanswered
             {| status_code := 200;
                json := Ok (VDict {[ "content" := VStr "SGk=";
                                     "encoding" := VStr "base64" ]}) |}
             {[ "content" := VStr "SGk="; "encoding" := VStr "base64" ]});
    vm_compute; reflexivity.
Defined.

Lemma url_tree_string_of_listing_witness :
  url_tree_dict "https://github.com/acme/widgets" []
  = (Ok (VDict {[ "src" := VDict {[ "a.py" := VNone;
                                    "b" := VDict {[ "c.py" := VNone ]} ]} ]}),
     [ sent (branch_endpoint (Some "acme") (Some "widgets") "main") None;
       sent (tree_endpoint (Some "acme") (Some "widgets") "abc")
         recursive_params ])
  ∧ url_tree_string "https://github.com/acme/widgets" []
    = (Ok (VStr ("Root" +:+ nl
                 +:+ render_spec
                       (VDict {[ "src" := VDict {[ "a.py" := VNone;
                                   "b" := VDict {[ "c.py" := VNone ]} ]} ]})
                       [])),
       [ sent (branch_endpoint (Some "acme") (Some "widgets") "main") None;
         sent (tree_endpoint (Some "acme") (Some "widgets") "abc")
           recursive_params ]).
Proof.
  apply (url_tree_string_of_listing
           "https://github.com/acme/widgets" []
           [ sent (branch_endpoint (Some "acme") (Some "widgets") "main") None;
             sent (tree_endpoint (Some "acme") (Some "widgets") "abc")
               recursive_params ]
           (VList (item_of <$> example_entries)));
    try (vm_compute; reflexivity).
  discriminate.
Defined.

Lemma add_item_completes_iff_witness :
  ((∃ t', add_item (VDict {[ "src" := VDict ∅ ]})
            (item_of {| entry_path := "src/a.py"; entry_type := "blob" |})
          = Ok t')
   ↔ (∀ P, P ≠ [] →
           proper_prefix P
             (parts {| entry_path := "src/a.py"; entry_type := "blob" |}) →
           lookup_path (VDict {[ "src" := VDict ∅ ]}) P ≠ Some VNone))
  ∧ ((∃ t', add_item (VDict {[ "src" := VDict ∅ ]})
              (item_of {| entry_path := "src/a.py"; entry_type := "blob" |})
            = Ok t')
     ∨ add_item (VDict {[ "src" := VDict ∅ ]})
         (item_of {| entry_path := "src/a.py"; entry_type := "blob" |})
       = Raise AttributeError
     ∨ add_item (VDict {[ "src" := VDict ∅ ]})
         (item_of {| entry_path := "src/a.py"; entry_type := "blob" |})
       = Raise TypeError).
Proof.
  apply (add_item_completes_iff
           {| entry_path := "src/a.py"; entry_type := "blob" |}
           (VDict {[ "src" := VDict ∅ ]})).
  apply (dir_node_insert ∅ "src" (VDict ∅)); [apply dir_node_empty|].
  right. apply dir_node_empty.
Defined.

Lemma consistent_listing_builds_witness :
  ∃ t, tree_dict_of (VList (item_of <$> example_entries)) = Ok t
       ∧ (∀ f, f ∈ example_entries → is_tree f = false →
               lookup_path t (parts f) = Some VNone)
       ∧ (∀ e, e ∈ example_entries → is_tree e = true →
               (∀ f, f ∈ example_entries → is_tree f = false →
                     parts f ≠ parts e) →
               ∃ d, lookup_path t (parts e) = Some (VDict d)).
Proof.
  apply (consistent_listing_builds example_entries).
  intros f e Hf He _ [[k Hk] Hne]. unfold example_entries in Hf, He.
  apply elem_of_cons in Hf as [->|Hf];
    [|apply list_elem_of_singleton in Hf as ->];
    (apply elem_of_cons in He as [->|He];
     [|apply list_elem_of_singleton in He as ->]);
    vm_compute in Hk; vm_compute in Hne; congruence.
Defined.

Lemma tree_paths_come_from_listing_witness :
  ["src"; "b"] = []
  ∨ ∃ e, e ∈ example_entries ∧ ["src"; "b"] `prefix_of` parts e.
Proof.
  apply (tree_paths_come_from_listing example_entries
           (VDict {[ "src" := VDict {[ "a.py" := VNone;
                                       "b" := VDict {[ "c.py" := VNone ]} ]} ]})
           ["src"; "b"]).
  - vm_compute; reflexivity.
  - eexists. vm_compute; reflexivity.
Defined.

Lemma add_item_twice_witness :
  add_item (VDict {[ "src" := VDict {[ "a.py" := VNone ]} ]})
    (item_of {| entry_path := "src/a.py"; entry_type := "blob" |})
  = Ok (VDict {[ "src" := VDict {[ "a.py" := VNone ]} ]}).
Proof.
  apply (add_item_twice
           {| entry_path := "src/a.py"; entry_type := "blob" |}
           (VDict ∅)).
  vm_compute; reflexivity.
Defined.

Lemma add_item_frame_witness :
  lookup_path
    (VDict {[ "docs" := VDict {[ "a.md" := VNone ]};
              "src" := VDict {[ "a.py" := VNone ]} ]})
    ["docs"; "a.md"]
  = lookup_path (VDict {[ "docs" := VDict {[ "a.md" := VNone ]} ]})
      ["docs"; "a.md"].
Proof.
  apply (add_item_frame
           {| entry_path := "src/a.py"; entry_type := "blob" |}).
  - vm_compute; reflexivity.
  - intros [k Hk]. vm_compute in Hk. congruence.
  - intros [k Hk]. vm_compute in Hk. congruence.
Defined.

Lemma success_banner_means_valid_options_witness :
  ∃ o k ty u,
    session_after example_collaborators example_input ∅ !! "options"
    = Some (VDict o)
    ∧ o !! "api_key" = Some (VStr k) ∧ k ≠ ""
    ∧ o !! "api_type" = Some (VStr ty) ∧ (ty = "GPT" ∨ ty = "GEMINI")
    ∧ o !! "repository_url" = Some (VStr u) ∧ url_check u = Ok true.
Proof.
  apply (success_banner_means_valid_options
           [] example_collaborators example_input
           (Home.run example_collaborators example_input ∅ []).1
           (session_after example_collaborators example_input ∅)
           (Home.run example_collaborators example_input ∅ []).2.2
           "API KEY와 GitHub URL가 확인되었습니다. 왼쪽 사이드바에서 분석 페이지로 이동하세요!").
  - unfold session_after, sessions_after. cbn [foldl].
    by destruct (Home.run example_collaborators example_input ∅ [])
      as [? [? ?]].
  - vm_compute. repeat constructor.
Defined.

End more_examples.
